(** * Formal model of the LED name-tag firmware (src/standard/main.c)

    The firmware runs on an 8-bit Padauk microcontroller compiled with SDCC,
    where [int] is 16 bits wide: [uint8_t] values are integers modulo 2^8
    and [uint16_t] values integers modulo 2^16, and arithmetic on two
    [uint16_t] operands is carried out modulo 2^16.  Every C object is
    modelled as a [Z] together with the explicit truncation applied when
    the C code stores into it.

    The global variables of main.c become the fields of one [state] record;
    each C function becomes a function on that record.  Reads of the two
    ROM tables [pp] and [colors] are bounds-checked: an out-of-range index
    makes the enclosing function return [None]. *)

From Stdlib Require Import ZArith List Bool Lia.
Import ListNotations.
Local Open Scope Z_scope.

(** ** Machine integers *)

Definition u8 (z : Z) : Z := z mod 256.
Definition u16 (z : Z) : Z := z mod 65536.

(** C truth value of [x & m] used as a condition. *)
Definition masked (x m : Z) : bool := negb (Z.land x m =? 0).

(** ** Arrays of three bytes

    [LedPos], [LedCol], [LedChaseCount] and [randomposns] all have three
    elements and are only ever indexed by the literals 0, 1 and 2. *)

Inductive ix3 : Type := i0 | i1 | i2.

Record arr3 : Type := Arr3 { el0 : Z; el1 : Z; el2 : Z }.

Definition get3 (a : arr3) (i : ix3) : Z :=
  match i with i0 => el0 a | i1 => el1 a | i2 => el2 a end.

Definition put3 (a : arr3) (i : ix3) (v : Z) : arr3 :=
  match i with
  | i0 => Arr3 v (el1 a) (el2 a)
  | i1 => Arr3 (el0 a) v (el2 a)
  | i2 => Arr3 (el0 a) (el1 a) v
  end.

Definition all3 (P : Z -> Prop) (a : arr3) : Prop :=
  P (el0 a) /\ P (el1 a) /\ P (el2 a).

(** ** ROM tables *)

(** Component LED to pin-pair translation table: 24 red, 24 green,
    24 blue and one final "no LED" entry. *)
Definition pp : list Z :=
  [ 0x42;0x24;0x71;0x17;0x41;0x14;0x72;0x27;0x53;0x35;0x93;0x39;
    0x98;0x89;0x58;0x85;0x28;0x82;0x74;0x47;0x75;0x57;0x96;0x69;
    0x32;0x25;0x61;0x19;0x31;0x15;0x62;0x29;0x43;0x36;0x73;0x45;
    0x78;0x12;0x48;0x86;0x18;0x83;0x64;0x49;0x65;0x59;0x76;0x79;
    0x52;0x23;0x91;0x16;0x51;0x13;0x92;0x26;0x63;0x34;0x54;0x37;
    0x21;0x87;0x68;0x84;0x38;0x81;0x94;0x46;0x95;0x56;0x97;0x67;
    0x00 ].

(** Colour sequence table. *)
Definition colors : list Z :=
  [ 0x03;0x07;0x0a;0x0d;0x0c;0x1c;0x28;0x34;0x30;0x31;0x22;0x13 ].

(** Indexed read of a ROM table; [None] when the index is outside it. *)
Definition rom (t : list Z) (i : Z) : option Z :=
  if i <? 0 then None else nth_error t (Z.to_nat i).

(** ** Constants *)

Definition SETPA3 : Z := 0x08.
Definition CLEARPA3 : Z := 0xf7.
Definition SETPA6 : Z := 0x40.
Definition CLEARPA6 : Z := 0xbf.

Definition irwatchdogtimeout : Z := 4444.
Definition transmitirpulseafter : Z := 4074.
Definition irpulsetime : Z := 2.
Definition irdeaftime : Z := 2.

Definition chaserpositiontargetcount0 : Z := 113.
Definition chaserpositiontargetcount1 : Z := 11.
Definition chaserpositiontargetcount2 : Z := 9.
Definition chasercolortargetcount : Z := 253.

(** ** Program state: the globals of main.c and the four port registers *)

Record state : Type := MkState {
  debugstatus : Z;
  colorcount : Z;
  mode : Z;
  irwatchdog : Z;
  LedPos : arr3;
  LedCol : arr3;
  LedComTimePhase : Z;
  LedChaseCount : arr3;
  LedColorCount : Z;
  randomnr : Z;
  randomposns : arr3;
  elapsedtocks : Z;
  previoustocks : Z;
  intt : Z;
  intda : Z;
  intca : Z;
  intdb : Z;
  intcb : Z;
  PA : Z;
  PAC : Z;
  PB : Z;
  PBC : Z
}.

Definition set_debugstatus (v : Z) (s : state) : state :=
  MkState v (colorcount s) (mode s) (irwatchdog s) (LedPos s) (LedCol s)
    (LedComTimePhase s) (LedChaseCount s) (LedColorCount s) (randomnr s)
    (randomposns s) (elapsedtocks s) (previoustocks s) (intt s) (intda s)
    (intca s) (intdb s) (intcb s) (PA s) (PAC s) (PB s) (PBC s).

Definition set_colorcount (v : Z) (s : state) : state :=
  MkState (debugstatus s) v (mode s) (irwatchdog s) (LedPos s) (LedCol s)
    (LedComTimePhase s) (LedChaseCount s) (LedColorCount s) (randomnr s)
    (randomposns s) (elapsedtocks s) (previoustocks s) (intt s) (intda s)
    (intca s) (intdb s) (intcb s) (PA s) (PAC s) (PB s) (PBC s).

Definition set_mode (v : Z) (s : state) : state :=
  MkState (debugstatus s) (colorcount s) v (irwatchdog s) (LedPos s)
    (LedCol s) (LedComTimePhase s) (LedChaseCount s) (LedColorCount s)
    (randomnr s) (randomposns s) (elapsedtocks s) (previoustocks s) (intt s)
    (intda s) (intca s) (intdb s) (intcb s) (PA s) (PAC s) (PB s) (PBC s).

Definition set_irwatchdog (v : Z) (s : state) : state :=
  MkState (debugstatus s) (colorcount s) (mode s) v (LedPos s) (LedCol s)
    (LedComTimePhase s) (LedChaseCount s) (LedColorCount s) (randomnr s)
    (randomposns s) (elapsedtocks s) (previoustocks s) (intt s) (intda s)
    (intca s) (intdb s) (intcb s) (PA s) (PAC s) (PB s) (PBC s).

Definition set_LedPos (v : arr3) (s : state) : state :=
  MkState (debugstatus s) (colorcount s) (mode s) (irwatchdog s) v
    (LedCol s) (LedComTimePhase s) (LedChaseCount s) (LedColorCount s)
    (randomnr s) (randomposns s) (elapsedtocks s) (previoustocks s) (intt s)
    (intda s) (intca s) (intdb s) (intcb s) (PA s) (PAC s) (PB s) (PBC s).

Definition set_LedCol (v : arr3) (s : state) : state :=
  MkState (debugstatus s) (colorcount s) (mode s) (irwatchdog s) (LedPos s)
    v (LedComTimePhase s) (LedChaseCount s) (LedColorCount s) (randomnr s)
    (randomposns s) (elapsedtocks s) (previoustocks s) (intt s) (intda s)
    (intca s) (intdb s) (intcb s) (PA s) (PAC s) (PB s) (PBC s).

Definition set_LedComTimePhase (v : Z) (s : state) : state :=
  MkState (debugstatus s) (colorcount s) (mode s) (irwatchdog s) (LedPos s)
    (LedCol s) v (LedChaseCount s) (LedColorCount s) (randomnr s)
    (randomposns s) (elapsedtocks s) (previoustocks s) (intt s) (intda s)
    (intca s) (intdb s) (intcb s) (PA s) (PAC s) (PB s) (PBC s).

Definition set_LedChaseCount (v : arr3) (s : state) : state :=
  MkState (debugstatus s) (colorcount s) (mode s) (irwatchdog s) (LedPos s)
    (LedCol s) (LedComTimePhase s) v (LedColorCount s) (randomnr s)
    (randomposns s) (elapsedtocks s) (previoustocks s) (intt s) (intda s)
    (intca s) (intdb s) (intcb s) (PA s) (PAC s) (PB s) (PBC s).

Definition set_LedColorCount (v : Z) (s : state) : state :=
  MkState (debugstatus s) (colorcount s) (mode s) (irwatchdog s) (LedPos s)
    (LedCol s) (LedComTimePhase s) (LedChaseCount s) v (randomnr s)
    (randomposns s) (elapsedtocks s) (previoustocks s) (intt s) (intda s)
    (intca s) (intdb s) (intcb s) (PA s) (PAC s) (PB s) (PBC s).

Definition set_randomnr (v : Z) (s : state) : state :=
  MkState (debugstatus s) (colorcount s) (mode s) (irwatchdog s) (LedPos s)
    (LedCol s) (LedComTimePhase s) (LedChaseCount s) (LedColorCount s) v
    (randomposns s) (elapsedtocks s) (previoustocks s) (intt s) (intda s)
    (intca s) (intdb s) (intcb s) (PA s) (PAC s) (PB s) (PBC s).

Definition set_randomposns (v : arr3) (s : state) : state :=
  MkState (debugstatus s) (colorcount s) (mode s) (irwatchdog s) (LedPos s)
    (LedCol s) (LedComTimePhase s) (LedChaseCount s) (LedColorCount s)
    (randomnr s) v (elapsedtocks s) (previoustocks s) (intt s) (intda s)
    (intca s) (intdb s) (intcb s) (PA s) (PAC s) (PB s) (PBC s).

Definition set_elapsedtocks (v : Z) (s : state) : state :=
  MkState (debugstatus s) (colorcount s) (mode s) (irwatchdog s) (LedPos s)
    (LedCol s) (LedComTimePhase s) (LedChaseCount s) (LedColorCount s)
    (randomnr s) (randomposns s) v (previoustocks s) (intt s) (intda s)
    (intca s) (intdb s) (intcb s) (PA s) (PAC s) (PB s) (PBC s).

Definition set_previoustocks (v : Z) (s : state) : state :=
  MkState (debugstatus s) (colorcount s) (mode s) (irwatchdog s) (LedPos s)
    (LedCol s) (LedComTimePhase s) (LedChaseCount s) (LedColorCount s)
    (randomnr s) (randomposns s) (elapsedtocks s) v (intt s) (intda s)
    (intca s) (intdb s) (intcb s) (PA s) (PAC s) (PB s) (PBC s).

Definition set_intt (v : Z) (s : state) : state :=
  MkState (debugstatus s) (colorcount s) (mode s) (irwatchdog s) (LedPos s)
    (LedCol s) (LedComTimePhase s) (LedChaseCount s) (LedColorCount s)
    (randomnr s) (randomposns s) (elapsedtocks s) (previoustocks s) v
    (intda s) (intca s) (intdb s) (intcb s) (PA s) (PAC s) (PB s) (PBC s).

Definition set_intda (v : Z) (s : state) : state :=
  MkState (debugstatus s) (colorcount s) (mode s) (irwatchdog s) (LedPos s)
    (LedCol s) (LedComTimePhase s) (LedChaseCount s) (LedColorCount s)
    (randomnr s) (randomposns s) (elapsedtocks s) (previoustocks s) (intt s)
    v (intca s) (intdb s) (intcb s) (PA s) (PAC s) (PB s) (PBC s).

Definition set_intca (v : Z) (s : state) : state :=
  MkState (debugstatus s) (colorcount s) (mode s) (irwatchdog s) (LedPos s)
    (LedCol s) (LedComTimePhase s) (LedChaseCount s) (LedColorCount s)
    (randomnr s) (randomposns s) (elapsedtocks s) (previoustocks s) (intt s)
    (intda s) v (intdb s) (intcb s) (PA s) (PAC s) (PB s) (PBC s).

Definition set_intdb (v : Z) (s : state) : state :=
  MkState (debugstatus s) (colorcount s) (mode s) (irwatchdog s) (LedPos s)
    (LedCol s) (LedComTimePhase s) (LedChaseCount s) (LedColorCount s)
    (randomnr s) (randomposns s) (elapsedtocks s) (previoustocks s) (intt s)
    (intda s) (intca s) v (intcb s) (PA s) (PAC s) (PB s) (PBC s).

Definition set_intcb (v : Z) (s : state) : state :=
  MkState (debugstatus s) (colorcount s) (mode s) (irwatchdog s) (LedPos s)
    (LedCol s) (LedComTimePhase s) (LedChaseCount s) (LedColorCount s)
    (randomnr s) (randomposns s) (elapsedtocks s) (previoustocks s) (intt s)
    (intda s) (intca s) (intdb s) v (PA s) (PAC s) (PB s) (PBC s).

Definition set_PA (v : Z) (s : state) : state :=
  MkState (debugstatus s) (colorcount s) (mode s) (irwatchdog s) (LedPos s)
    (LedCol s) (LedComTimePhase s) (LedChaseCount s) (LedColorCount s)
    (randomnr s) (randomposns s) (elapsedtocks s) (previoustocks s) (intt s)
    (intda s) (intca s) (intdb s) (intcb s) v (PAC s) (PB s) (PBC s).

Definition set_PAC (v : Z) (s : state) : state :=
  MkState (debugstatus s) (colorcount s) (mode s) (irwatchdog s) (LedPos s)
    (LedCol s) (LedComTimePhase s) (LedChaseCount s) (LedColorCount s)
    (randomnr s) (randomposns s) (elapsedtocks s) (previoustocks s) (intt s)
    (intda s) (intca s) (intdb s) (intcb s) (PA s) v (PB s) (PBC s).

Definition set_PB (v : Z) (s : state) : state :=
  MkState (debugstatus s) (colorcount s) (mode s) (irwatchdog s) (LedPos s)
    (LedCol s) (LedComTimePhase s) (LedChaseCount s) (LedColorCount s)
    (randomnr s) (randomposns s) (elapsedtocks s) (previoustocks s) (intt s)
    (intda s) (intca s) (intdb s) (intcb s) (PA s) (PAC s) v (PBC s).

Definition set_PBC (v : Z) (s : state) : state :=
  MkState (debugstatus s) (colorcount s) (mode s) (irwatchdog s) (LedPos s)
    (LedCol s) (LedComTimePhase s) (LedChaseCount s) (LedColorCount s)
    (randomnr s) (randomposns s) (elapsedtocks s) (previoustocks s) (intt s)
    (intda s) (intca s) (intdb s) (intcb s) (PA s) (PAC s) (PB s) v.

(* Updating a known state computes. *)
#[global] Arguments set_debugstatus v !s /.
#[global] Arguments set_colorcount v !s /.
#[global] Arguments set_mode v !s /.
#[global] Arguments set_irwatchdog v !s /.
#[global] Arguments set_LedPos v !s /.
#[global] Arguments set_LedCol v !s /.
#[global] Arguments set_LedComTimePhase v !s /.
#[global] Arguments set_LedChaseCount v !s /.
#[global] Arguments set_LedColorCount v !s /.
#[global] Arguments set_randomnr v !s /.
#[global] Arguments set_randomposns v !s /.
#[global] Arguments set_elapsedtocks v !s /.
#[global] Arguments set_previoustocks v !s /.
#[global] Arguments set_intt v !s /.
#[global] Arguments set_intda v !s /.
#[global] Arguments set_intca v !s /.
#[global] Arguments set_intdb v !s /.
#[global] Arguments set_intcb v !s /.
#[global] Arguments set_PA v !s /.
#[global] Arguments set_PAC v !s /.
#[global] Arguments set_PB v !s /.
#[global] Arguments set_PBC v !s /.

Notation "x <- e ;; k" :=
  (match e with Some x => k | None => None end)
  (at level 61, e at next level, right associativity).

(** ** Part 3 of the interrupt: LED display timing *)

(** The first [switch (LedComTimePhase)]: the component LED to light in
    this phase, 72 ("no RGB component") unless a case overrides it. *)
Definition select_component (phase : Z) (pos col : arr3) : Z :=
  match phase with
  | 0 => if masked (get3 col i0) 0x01 then get3 pos i0 else 72
  | 1 => if masked (get3 col i0) 0x04 then u8 (get3 pos i0 + 24) else 72
  | 2 => if masked (get3 col i0) 0x10 then u8 (get3 pos i0 + 48) else 72
  | 3 => if masked (get3 col i1) 0x01 then get3 pos i1 else 72
  | 4 => if masked (get3 col i1) 0x04 then u8 (get3 pos i1 + 24) else 72
  | 5 => if masked (get3 col i1) 0x10 then u8 (get3 pos i1 + 48) else 72
  | 6 => if masked (get3 col i2) 0x01 then get3 pos i2 else 72
  | 7 => if masked (get3 col i2) 0x04 then u8 (get3 pos i2 + 24) else 72
  | 8 => if masked (get3 col i2) 0x10 then u8 (get3 pos i2 + 48) else 72
  | 18 | 9 => if masked (get3 col i0) 0x02 then get3 pos i0 else 72
  | 19 | 10 => if masked (get3 col i0) 0x08 then u8 (get3 pos i0 + 24) else 72
  | 20 | 11 => if masked (get3 col i0) 0x20 then u8 (get3 pos i0 + 48) else 72
  | 21 | 12 => if masked (get3 col i1) 0x02 then get3 pos i1 else 72
  | 22 | 13 => if masked (get3 col i1) 0x08 then u8 (get3 pos i1 + 24) else 72
  | 23 | 14 => if masked (get3 col i1) 0x20 then u8 (get3 pos i1 + 48) else 72
  | 24 | 15 => if masked (get3 col i2) 0x02 then get3 pos i2 else 72
  | 25 | 16 => if masked (get3 col i2) 0x08 then u8 (get3 pos i2 + 24) else 72
  | 26 | 17 => if masked (get3 col i2) 0x20 then u8 (get3 pos i2 + 48) else 72
  | _ => 72
  end.

(** [switch ((pp[intt]) >> 4)]: the pin that is driven high. *)
Definition high_pin (n : Z) (s : state) : state :=
  match n with
  | 0 => set_intcb 0x04 s
  | 1 => set_intcb 0x05 (set_intdb (Z.lor (intdb s) 0x01) s)
  | 2 => set_intcb 0x06 (set_intdb (Z.lor (intdb s) 0x02) s)
  | 3 => set_intcb 0x0c (set_intdb (Z.lor (intdb s) 0x08) s)
  | 4 => set_intcb 0x14 (set_intdb (Z.lor (intdb s) 0x10) s)
  | 5 => set_intcb 0x24 (set_intdb (Z.lor (intdb s) 0x20) s)
  | 6 => set_intcb 0x44 (set_intdb (Z.lor (intdb s) 0x40) s)
  | 7 => set_intcb 0x84 (set_intdb (Z.lor (intdb s) 0x80) s)
  | 8 => set_intca 0x49 (set_intda (Z.lor (intda s) 0x01) s)
  | 9 => set_intca 0xc8 (set_intda (Z.lor (intda s) 0x80) s)
  | _ => s
  end.

(** [switch ((pp[intt]) & 0x0f)]: the pin that is driven low. *)
Definition low_pin (n : Z) (s : state) : state :=
  match n with
  | 0 => set_intcb 0x04 s
  | 1 => set_intcb (Z.lor (intcb s) 0x01) s
  | 2 => set_intcb (Z.lor (intcb s) 0x02) s
  | 3 => set_intcb (Z.lor (intcb s) 0x08) s
  | 4 => set_intcb (Z.lor (intcb s) 0x10) s
  | 5 => set_intcb (Z.lor (intcb s) 0x20) s
  | 6 => set_intcb (Z.lor (intcb s) 0x40) s
  | 7 => set_intcb (Z.lor (intcb s) 0x80) s
  | 8 => set_intca (Z.lor (intca s) 0x01) s
  | 9 => set_intca (Z.lor (intca s) 0x80) s
  | _ => s
  end.

(** Generate the values for port A and port B and output them. *)
Definition drive_ports (s : state) : option state :=
  let s := set_intda (debugstatus s) s in
  let s := set_intca 0x48 s in
  let s := set_intdb 0 s in
  let s := set_intcb 0x04 s in
  hi <- rom pp (intt s) ;;
  let s := high_pin (Z.shiftr hi 4) s in
  lo <- rom pp (intt s) ;;
  let s := low_pin (Z.land lo 0x0f) s in
  let s := set_PAC (intca s) s in
  let s := set_PA (intda s) s in
  let s := set_PBC (intcb s) s in
  let s := set_PB (intdb s) s in
  Some s.

(** ** Part 4 of the interrupt: LED pattern generation *)

(** The [makerandom] macro, applied to the value of [randomnr]. *)
Definition makerandom (r : Z) : Z :=
  let r := u16 (Z.lor r (if r =? 0 then 1 else 0)) in
  let r := u16 (Z.lxor r (Z.shiftl r 13)) in
  let r := u16 (Z.lxor r (Z.shiftr r 9)) in
  u16 (Z.lxor r (Z.shiftl r 7)).

(** [if (LedPos[i]>22) LedPos[i]=0; else LedPos[i]++;] *)
Definition chase_up (p : Z) : Z := if 22 <? p then 0 else u8 (p + 1).

(** [if (LedPos[i]<1) LedPos[i]=23; else LedPos[i]--;] *)
Definition chase_down (p : Z) : Z := if p <? 1 then 23 else u8 (p - 1).

(** [LedChaseCount[i]=LedChaseCount[i]-1;] *)
Definition count_down (i : ix3) (s : state) : state :=
  set_LedChaseCount
    (put3 (LedChaseCount s) i (u8 (get3 (LedChaseCount s) i - 1))) s.

(** Position update of pixel [i] when its chase counter is zero:
    [advance] in mode 1, the pending random position in mode 0. *)
Definition move_pixel (i : ix3) (advance : Z -> Z) (s : state) : state :=
  if get3 (LedChaseCount s) i =? 0 then
    if negb (mode s =? 0)
    then set_LedPos (put3 (LedPos s) i (advance (get3 (LedPos s) i))) s
    else set_LedPos (put3 (LedPos s) i (get3 (randomposns s) i)) s
  else s.

(** [if (LedChaseCount[i]==0) LedChaseCount[i]=target;] *)
Definition reload (i : ix3) (target : Z) (s : state) : state :=
  if get3 (LedChaseCount s) i =? 0
  then set_LedChaseCount (put3 (LedChaseCount s) i target) s
  else s.

(** [if ((randomnr & 0x18) != 0x18) randomposns[i]=randomnr&0x1f;] *)
Definition draw (i : ix3) (s : state) : state :=
  if negb (Z.land (randomnr s) 0x18 =? 0x18)
  then set_randomposns
         (put3 (randomposns s) i (u8 (Z.land (randomnr s) 0x1f))) s
  else s.

(** Phase 22: reload the colour counter and step [colorcount]. *)
Definition step_color (s : state) : state :=
  if LedColorCount s =? 0 then
    let s := set_LedColorCount chasercolortargetcount s in
    if 10 <? colorcount s
    then set_colorcount 0 s
    else set_colorcount (u8 (colorcount s + 1)) s
  else s.

(** [LedCol[i] = colors[k];] *)
Definition load_color (i : ix3) (k : Z) (s : state) : option state :=
  c <- rom colors k ;;
  Some (set_LedCol (put3 (LedCol s) i c) s).

(** Phase 26: the watchdog and the tock counter. *)
Definition end_of_tock (s : state) : state :=
  let s := set_LedComTimePhase 0xff s in
  let s :=
    if irwatchdog s <? irwatchdogtimeout
    then set_debugstatus (Z.lor (debugstatus s) SETPA6)
           (set_irwatchdog (u16 (irwatchdog s + 1)) s)
    else set_debugstatus 0 (set_mode 0 s) in
  set_elapsedtocks (u16 (elapsedtocks s + 1)) s.

(** The second [switch (LedComTimePhase)]. *)
Definition pattern_step (s : state) : option state :=
  match LedComTimePhase s with
  | 0 => Some (count_down i0 s)
  | 1 => Some (move_pixel i0 chase_up s)
  | 2 => Some (reload i0 chaserpositiontargetcount0 s)
  | 3 => Some (count_down i1 s)
  | 4 => Some (move_pixel i1 chase_down s)
  | 5 => Some (reload i1 chaserpositiontargetcount1 s)
  | 6 => Some (count_down i2 s)
  | 7 => Some (move_pixel i2 chase_up s)
  | 8 => Some (reload i2 chaserpositiontargetcount2 s)
  | 9 => Some (set_randomnr (makerandom (randomnr s)) s)
  | 10 => Some (draw i0 s)
  | 11 => Some (set_randomnr (makerandom (randomnr s)) s)
  | 12 => Some (draw i1 s)
  | 13 => Some (set_randomnr (makerandom (randomnr s)) s)
  | 14 => Some (draw i2 s)
  | 15 => Some (set_randomnr (makerandom (randomnr s)) s)
  | 16 => Some (draw i0 s)
  | 17 => Some (set_randomnr (makerandom (randomnr s)) s)
  | 18 => Some (draw i1 s)
  | 19 => Some (set_randomnr (makerandom (randomnr s)) s)
  | 20 => Some (draw i2 s)
  | 21 => Some (set_LedColorCount (u8 (LedColorCount s - 1)) s)
  | 22 => Some (step_color s)
  | 23 => load_color i0 (colorcount s) s
  | 24 => if colorcount s <? 8
          then load_color i1 (colorcount s + 4) s
          else load_color i1 (colorcount s - 8) s
  | 25 => if colorcount s <? 4
          then load_color i2 (colorcount s + 8) s
          else load_color i2 (colorcount s - 4) s
  | 26 => Some (end_of_tock s)
  | _ => Some s
  end.

(** ** The T16 interrupt handler

    One call models one invocation with the T16 request pending (the body
    of [if (INTRQ & INTRQ_T16)]).  The handler is not re-entrant and the
    main-loop accessors below mask it while they touch a 16-bit variable,
    so a call is one atomic step of the program. *)
Definition interrupt (s : state) : option state :=
  let s := set_intt (select_component (LedComTimePhase s) (LedPos s) (LedCol s)) s in
  s <- drive_ports s ;;
  s <- pattern_step s ;;
  Some (set_LedComTimePhase (u8 (LedComTimePhase s + 1)) s).

(** [n] consecutive timer interrupts. *)
Fixpoint ticks (n : nat) (s : state) : option state :=
  match n with
  | O => Some s
  | S n' => s' <- interrupt s ;; ticks n' s'
  end.

(** ** Main-loop side *)

(** The three accessors mask the T16 interrupt around their access, which
    makes each of them a single step between two interrupts. *)
Definition tocks (s : state) : Z := elapsedtocks s.

Definition get_irwatchdog_state (s : state) : Z :=
  if irwatchdogtimeout <=? irwatchdog s then 1 else 0.

Definition reset_irwatchdog (s : state) : state := set_irwatchdog 0 s.

Definition preset_irwatchdog (s : state) : state :=
  set_irwatchdog irwatchdogtimeout s.

Definition setup_ticks (s : state) : state := set_elapsedtocks 0 s.

(** Body of the monitoring branch of [waituntiltocks], taken when the IR
    detection pin PA4 reads low. *)
Definition ir_detected (s : state) : state :=
  let s := reset_irwatchdog s in
  let s := set_mode 1 s in
  set_debugstatus (Z.lor (debugstatus s) SETPA3) s.

(** What the environment does between two evaluations of the loop
    condition of [waituntiltocks]: the number of timer interrupts taken
    before [tocks()] is read, and the level read from port A. *)
Record poll : Type := Poll { fired : nat; pa_in : Z }.

Inductive outcome : Type :=
  | Returned (s : state) (rest : list poll)
  | Spinning (s : state)
  | Fault.

(** Body of the [while] loop of [waituntiltocks]. *)
Definition monitor_poll (monitor : Z) (p : poll) (s : state) : state :=
  if negb (monitor =? 0) then
    if Z.land (pa_in p) 0x10 =? 0 then ir_detected s else s
  else s.

(** [waituntiltocks(ttt, monitor)] run against the polls in [env]:
    [Returned] with the polls that were not consumed, or [Spinning] when
    [env] ends before the loop condition becomes false. *)
Fixpoint waituntiltocks (env : list poll) (ttt monitor : Z) (s : state)
  : outcome :=
  match env with
  | [] => Spinning s
  | p :: env' =>
      match ticks (fired p) s with
      | None => Fault
      | Some s =>
          let currenttocks := tocks s in
          if u16 (currenttocks - previoustocks s) <? ttt
          then waituntiltocks env' ttt monitor (monitor_poll monitor p s)
          else Returned (set_previoustocks (u16 (previoustocks s + ttt)) s)
                        env'
      end
  end.

(** Memory and ports when [main] is entered: objects without an
    initialiser are zero, [randomnr] is 1. *)
Definition reset_state : state :=
  MkState 0 0 0 0 (Arr3 0 0 0) (Arr3 0 0 0) 0 (Arr3 0 0 0) 0 1 (Arr3 0 0 0)
    0 0 0 0 0 0 0 0 0 0 0.

(** The initialisation part of [main], up to [previoustocks=tocks();].
    The pull-up, timer and interrupt-control registers it also programs
    are not part of the model. *)
Definition main_init (s : state) : state :=
  let s := set_PA 0x00 s in
  let s := set_PB 0x00 s in
  let s := set_PAC 0x48 s in
  let s := set_PBC 0x04 s in
  let s := set_mode 0 s in
  let s := set_debugstatus SETPA6 s in
  let s := preset_irwatchdog s in
  let s := set_PA (debugstatus s) s in
  let s := set_LedPos (Arr3 0 8 16) s in
  let s := set_LedCol (Arr3 0x03 0x0c 0x30) s in
  let s := set_LedChaseCount
             (Arr3 chaserpositiontargetcount0 chaserpositiontargetcount1
                   chaserpositiontargetcount2) s in
  let s := set_LedColorCount chasercolortargetcount s in
  let s := setup_ticks s in
  set_previoustocks (tocks s) s.

Definition boot : state := main_init reset_state.

(** One turn of the [while (1)] loop of [main].  The timer-2 registers
    that start and stop the 38 kHz carrier are not part of the model; the
    statement [PB &= 0xfb] is. *)
Definition ir_led_off (s : state) : state := set_PB (Z.land (PB s) 0xfb) s.

Definition main_cycle (env : list poll) (s : state) : outcome :=
  match waituntiltocks env transmitirpulseafter 1 s with
  | Returned s env =>
      match waituntiltocks env irpulsetime 0 s with
      | Returned s env => waituntiltocks env irdeaftime 0 (ir_led_off s)
      | o => o
      end
  | o => o
  end.

(** A list of waits carried out one after the other. *)
Fixpoint waits (env : list poll) (reqs : list (Z * Z)) (s : state) : outcome :=
  match reqs with
  | [] => Returned s env
  | (ttt, monitor) :: reqs' =>
      match waituntiltocks env ttt monitor s with
      | Returned s' env' => waits env' reqs' s'
      | o => o
      end
  end.

(** ** Steps of the whole program

    A step is one timer interrupt or one statement of the main loop that
    writes a variable or a port: the three statements executed when an IR
    pulse is seen, the update of [previoustocks] at the end of a wait,
    and switching the IR LED off.  A timer interrupt can come between any
    two of them. *)
Inductive step : state -> state -> Prop :=
  | step_tick s s' : interrupt s = Some s' -> step s s'
  | step_reset s : step s (reset_irwatchdog s)
  | step_mode s : step s (set_mode 1 s)
  | step_status s :
      step s (set_debugstatus (Z.lor (debugstatus s) SETPA3) s)
  | step_anchor s ttt :
      step s (set_previoustocks (u16 (previoustocks s + ttt)) s)
  | step_led_off s : step s (ir_led_off s).

Inductive reachable : state -> Prop :=
  | reach_boot : reachable boot
  | reach_step s s' : reachable s -> step s s' -> reachable s'.

(** ** Invariant of the globals *)

Definition byte_range (z : Z) : Prop := 0 <= z <= 255.
Definition word_range (z : Z) : Prop := 0 <= z <= 65535.
Definition ring_range (z : Z) : Prop := 0 <= z <= 23.

Record Inv (s : state) : Prop := MkInv {
  inv_phase : 0 <= LedComTimePhase s <= 26;
  inv_pos : all3 ring_range (LedPos s);
  inv_rnd : all3 ring_range (randomposns s);
  inv_cc : 0 <= colorcount s <= 11;
  inv_dbg : In (debugstatus s) [0; 0x08; 0x40; 0x48];
  inv_mode : mode s = 0 \/ mode s = 1;
  inv_wd : 0 <= irwatchdog s <= irwatchdogtimeout;
  inv_col : all3 byte_range (LedCol s);
  inv_chase : all3 byte_range (LedChaseCount s);
  inv_colcnt : byte_range (LedColorCount s);
  inv_rn : word_range (randomnr s);
  inv_tocks : word_range (elapsedtocks s);
  inv_prev : word_range (previoustocks s)
}.

(** ** Notions used in the statements *)

(** The port image written by the display part of the handler. *)
Definition with_ports (da ca db cb : Z) (s : state) : state :=
  set_PB db (set_PBC cb (set_PA da (set_PAC ca
    (set_intcb cb (set_intdb db (set_intca ca (set_intda da s))))))).

(** Number of phase-26 evaluations (tocks) among [n] interrupts taken
    from a state whose phase counter is [ph]. *)
Definition tocks_within (ph : Z) (n : nat) : Z := (ph + Z.of_nat n) / 27.

(** Interrupts taken up to and including poll [j] of [env]. *)
Definition fired_upto (env : list poll) (j : nat) : nat :=
  list_sum (map fired (firstn (S j) env)).

(** Value that [tocks()] returns at poll [j] of a wait started in [s]. *)
Definition observed (s : state) (env : list poll) (j : nat) : Z :=
  u16 (elapsedtocks s + tocks_within (LedComTimePhase s) (fired_upto env j)).

(** The 16-bit difference compared with [ttt] at poll [j]. *)
Definition diff_at (s : state) (env : list poll) (j : nat) : Z :=
  u16 (observed s env j - previoustocks s).

(** Sum of requested durations. *)
Definition requested (reqs : list (Z * Z)) : Z :=
  fold_right (fun r acc => fst r + acc) 0 reqs.

(** Polls that come at least once per tock. *)
Definition fair (env : list poll) : Prop :=
  Forall (fun p => (fired p <= 27)%nat) env.

(** Tocks that the interrupts of [env] still produce from [s]. *)
Definition tocks_left (s : state) (env : list poll) : Z :=
  tocks_within (LedComTimePhase s) (list_sum (map fired env)).

(** Pixel, colour channel and intensity bit that a display phase shows:
    phases 0..8 show the low bit, phases 9..26 the high bit, and phase
    [k + 9] repeats phase [k] for [k] in 9..17. *)
Definition ix3_of (z : Z) : ix3 :=
  match z with 0 => i0 | 1 => i1 | _ => i2 end.

Definition pixel_of_phase (phase : Z) : ix3 := ix3_of ((phase mod 9) / 3).
Definition channel_of_phase (phase : Z) : Z := phase mod 3.
Definition bit_of_phase (phase : Z) : Z :=
  2 * channel_of_phase phase + (if phase <? 9 then 0 else 1).

(** The nine pins that drive the LED matrix.  A pin is an output when its
    bit in the port control register (PAC, PBC) is 1, and then drives the
    level of its bit in the port data register (PA, PB); otherwise it is
    high impedance. *)
Inductive led_pin : Type := B0 | B1 | B3 | B4 | B5 | B6 | B7 | A0 | A7.

Definition led_pins : list led_pin := [B0; B1; B3; B4; B5; B6; B7; A0; A7].

Definition on_port_a (p : led_pin) : bool :=
  match p with A0 | A7 => true | _ => false end.

Definition pin_bit (p : led_pin) : Z :=
  match p with
  | B0 => 0 | B1 => 1 | B3 => 3 | B4 => 4 | B5 => 5 | B6 => 6 | B7 => 7
  | A0 => 0 | A7 => 7
  end.

Definition is_output (s : state) (p : led_pin) : bool :=
  Z.testbit (if on_port_a p then PAC s else PBC s) (pin_bit p).

Definition level (s : state) (p : led_pin) : bool :=
  Z.testbit (if on_port_a p then PA s else PB s) (pin_bit p).

Definition driven_high (s : state) (p : led_pin) : bool :=
  is_output s p && level s p.

Definition driven_low (s : state) (p : led_pin) : bool :=
  is_output s p && negb (level s p).

(** The pin that a 4-bit code of the [pp] table stands for (the
    "pin <-> 4 bit number mapping" of the header comment of main.c). *)
Definition pin_of_code (n : Z) : option led_pin :=
  match n with
  | 1 => Some B0 | 2 => Some B1 | 3 => Some B3 | 4 => Some B4
  | 5 => Some B5 | 6 => Some B6 | 7 => Some B7 | 8 => Some A0
  | 9 => Some A7
  | _ => None
  end.

Definition led_pin_eqb (p q : led_pin) : bool :=
  match p, q with
  | B0, B0 | B1, B1 | B3, B3 | B4, B4 | B5, B5 | B6, B6 | B7, B7
  | A0, A0 | A7, A7 => true
  | _, _ => false
  end.

Definition pin_is (p : led_pin) (o : option led_pin) : bool :=
  match o with Some q => led_pin_eqb p q | None => false end.

(** A wait of 2 tocks that is polled after 1 tock and again after 4. *)
Definition late_polls : list poll := [Poll 27 0x10; Poll 81 0x10].

(** A colour setting that lights only the high-bit phases, on three
    different positions. *)
Definition probe_pos : arr3 := Arr3 0 1 2.
Definition probe_col : arr3 := Arr3 0x2a 0x2a 0x2a.

(** The slot of [randomposns] that a phase refills, if any. *)
Definition draw_slot (phase : Z) : option ix3 :=
  match phase with
  | 10 | 16 => Some i0
  | 12 | 18 => Some i1
  | 14 | 20 => Some i2
  | _ => None
  end.

(** What one interrupt entered in state [s] does to [randomposns]. *)
Definition random_effect (s s' : state) : Prop :=
  match draw_slot (LedComTimePhase s) with
  | Some i =>
      if Z.land (randomnr s) 0x18 =? 0x18
      then randomposns s' = randomposns s
      else randomposns s' =
             put3 (randomposns s) i (Z.land (randomnr s) 0x1f)
  | None => randomposns s' = randomposns s
  end.

(** What one interrupt entered in state [s] does to [LedPos]. *)
Definition chase_effect (s s' : state) : Prop :=
  match LedComTimePhase s with
  | 1 => LedPos s' =
           if get3 (LedChaseCount s) i0 =? 0
           then put3 (LedPos s) i0
                  (if mode s =? 0 then get3 (randomposns s) i0
                   else chase_up (get3 (LedPos s) i0))
           else LedPos s
  | 4 => LedPos s' =
           if get3 (LedChaseCount s) i1 =? 0
           then put3 (LedPos s) i1
                  (if mode s =? 0 then get3 (randomposns s) i1
                   else chase_down (get3 (LedPos s) i1))
           else LedPos s
  | 7 => LedPos s' =
           if get3 (LedChaseCount s) i2 =? 0
           then put3 (LedPos s) i2
                  (if mode s =? 0 then get3 (randomposns s) i2
                   else chase_up (get3 (LedPos s) i2))
           else LedPos s
  | _ => LedPos s' = LedPos s
  end.

(** What one interrupt entered in state [s] does to the colours. *)
Definition color_effect (s s' : state) : Prop :=
  match LedComTimePhase s with
  | 22 =>
      LedCol s' = LedCol s /\
      colorcount s' =
        (if LedColorCount s =? 0
         then (if 10 <? colorcount s then 0 else colorcount s + 1)
         else colorcount s)
  | 23 =>
      colorcount s' = colorcount s /\
      exists v, rom colors (colorcount s) = Some v /\
                LedCol s' = put3 (LedCol s) i0 v
  | 24 =>
      colorcount s' = colorcount s /\
      exists v, rom colors (if colorcount s <? 8 then colorcount s + 4
                            else colorcount s - 8) = Some v /\
                LedCol s' = put3 (LedCol s) i1 v
  | 25 =>
      colorcount s' = colorcount s /\
      exists v, rom colors (if colorcount s <? 4 then colorcount s + 8
                            else colorcount s - 4) = Some v /\
                LedCol s' = put3 (LedCol s) i2 v
  | _ => colorcount s' = colorcount s /\ LedCol s' = LedCol s
  end.

(** ** Notions used for the generator *)

(** [true] when none of [x], [makerandom x], ... ([n] values) is 1. *)
Fixpoint avoids_one (n : nat) (x : Z) : bool :=
  match n with
  | O => true
  | S n' => negb (x =? 1) && avoids_one n' (makerandom x)
  end.

(** The [k]-th value of [randomnr] after its initial value 1. *)
Definition random_after (k : nat) : Z := Nat.iter k makerandom 1.

(** Number of non-zero 16-bit values, and the values themselves. *)
Definition period : nat := Z.to_nat 65535.

Definition nonzero_words : list Z := map Z.of_nat (seq 1 period).

(** [f] holds for the [n] integers from [z] on. *)
Fixpoint holds_from (n : nat) (f : Z -> bool) (z : Z) : bool :=
  match n with
  | O => true
  | S n' => f z && holds_from n' f (z + 1)
  end.

(** ** Notions used for the wiring *)

(** The pin pair (driven high, driven low) that entry [i] of [pp] encodes. *)
Definition pin_pair (i : Z) : option (led_pin * led_pin) :=
  v <- rom pp i ;;
  h <- pin_of_code (Z.shiftr v 4) ;;
  l <- pin_of_code (Z.land v 0x0f) ;;
  Some (h, l).

(** The wiring table of the header comment of main.c: for each of L00 to
    L23 the pin pairs of its red, green and blue LED. *)
Definition wiring : list ((led_pin * led_pin) * (led_pin * led_pin)
                          * (led_pin * led_pin)) :=
  [ ((B4,B1), (B3,B1), (B5,B1));
    ((B1,B4), (B1,B5), (B1,B3));
    ((B7,B0), (B6,B0), (A7,B0));
    ((B0,B7), (B0,A7), (B0,B6));
    ((B4,B0), (B3,B0), (B5,B0));
    ((B0,B4), (B0,B5), (B0,B3));
    ((B7,B1), (B6,B1), (A7,B1));
    ((B1,B7), (B1,A7), (B1,B6));
    ((B5,B3), (B4,B3), (B6,B3));
    ((B3,B5), (B3,B6), (B3,B4));
    ((A7,B3), (B7,B3), (B5,B4));
    ((B3,A7), (B4,B5), (B3,B7));
    ((A7,A0), (B7,A0), (B1,B0));
    ((A0,A7), (B0,B1), (A0,B7));
    ((B5,A0), (B4,A0), (B6,A0));
    ((A0,B5), (A0,B6), (A0,B4));
    ((B1,A0), (B0,A0), (B3,A0));
    ((A0,B1), (A0,B3), (A0,B0));
    ((B7,B4), (B6,B4), (A7,B4));
    ((B4,B7), (B4,A7), (B4,B6));
    ((B7,B5), (B6,B5), (A7,B5));
    ((B5,B7), (B5,A7), (B5,B6));
    ((A7,B6), (B7,B6), (A7,B7));
    ((B6,A7), (B7,A7), (B6,B7)) ].

(** Pin pair that the wiring table gives for component LED [i]
    (0..23 red, 24..47 green, 48..71 blue). *)
Definition wired (i : Z) : option (led_pin * led_pin) :=
  match nth_error wiring (Z.to_nat (i mod 24)) with
  | Some (r, g, b) =>
      if i <? 24 then Some r else if i <? 48 then Some g else Some b
  | None => None
  end.

(** The index of [pp] whose entry encodes the pair ([h], [l]), found by
    search. *)
Definition led_index (h l : led_pin) : option Z :=
  find (fun i => match pin_pair i with
                 | Some (h', l') => led_pin_eqb h h' && led_pin_eqb l l'
                 | None => false
                 end)
       (map Z.of_nat (seq 0 72)).

(** ** Notions used for the brightness *)




(** ** Notions used for the ports *)


(** ** Notions used for the pattern timing *)

(** The three chase counters, the colour counter and the colour index. *)
Record ctr : Type := Ctr { ch0 : Z; ch1 : Z; ch2 : Z; cnt : Z; cidx : Z }.

Definition counters (s : state) : ctr :=
  Ctr (get3 (LedChaseCount s) i0) (get3 (LedChaseCount s) i1)
      (get3 (LedChaseCount s) i2) (LedColorCount s) (colorcount s).

(** What the interrupt entered in phase [ph] does to the counters. *)
Definition counters_step (ph : Z) (c : ctr) : ctr :=
  match ph with
  | 0 => Ctr (u8 (ch0 c - 1)) (ch1 c) (ch2 c) (cnt c) (cidx c)
  | 2 => Ctr (if ch0 c =? 0 then chaserpositiontargetcount0 else ch0 c)
             (ch1 c) (ch2 c) (cnt c) (cidx c)
  | 3 => Ctr (ch0 c) (u8 (ch1 c - 1)) (ch2 c) (cnt c) (cidx c)
  | 5 => Ctr (ch0 c)
             (if ch1 c =? 0 then chaserpositiontargetcount1 else ch1 c)
             (ch2 c) (cnt c) (cidx c)
  | 6 => Ctr (ch0 c) (ch1 c) (u8 (ch2 c - 1)) (cnt c) (cidx c)
  | 8 => Ctr (ch0 c) (ch1 c)
             (if ch2 c =? 0 then chaserpositiontargetcount2 else ch2 c)
             (cnt c) (cidx c)
  | 21 => Ctr (ch0 c) (ch1 c) (ch2 c) (u8 (cnt c - 1)) (cidx c)
  | 22 => Ctr (ch0 c) (ch1 c) (ch2 c)
              (if cnt c =? 0 then chasercolortargetcount else cnt c)
              (if cnt c =? 0
               then (if 10 <? cidx c then 0 else u8 (cidx c + 1))
               else cidx c)
  | _ => c
  end.

(** The counters after [n] interrupts, the first one entered in phase
    [ph]. *)
Fixpoint run_counters (n : nat) (ph : Z) (c : ctr) : ctr :=
  match n with
  | O => c
  | S n' => run_counters n' ((ph + 1) mod 27) (counters_step ph c)
  end.

(** A down-counter over one tock: decremented modulo 256, and reloaded
    with [target] when that gives 0. *)
Definition next_count (target c : Z) : Z :=
  if u8 (c - 1) =? 0 then target else u8 (c - 1).


(** What the interrupt entered in phase [ph] does to [LedPos], given the
    mode, the pending random positions and the chase counters. *)
Definition pos_step (ph md : Z) (rnd ch pos : arr3) : arr3 :=
  match ph with
  | 1 => if get3 ch i0 =? 0
         then put3 pos i0 (if md =? 0 then get3 rnd i0
                           else chase_up (get3 pos i0))
         else pos
  | 4 => if get3 ch i1 =? 0
         then put3 pos i1 (if md =? 0 then get3 rnd i1
                           else chase_down (get3 pos i1))
         else pos
  | 7 => if get3 ch i2 =? 0
         then put3 pos i2 (if md =? 0 then get3 rnd i2
                           else chase_up (get3 pos i2))
         else pos
  | _ => pos
  end.

(** Chase counters and positions after [n] interrupts, the first one
    entered in phase [ph], while mode and pending positions stay put. *)
Fixpoint run_pos (n : nat) (ph md : Z) (rnd ch pos : arr3) : arr3 * arr3 :=
  match n with
  | O => (ch, pos)
  | S n' =>
      let c := counters_step ph (Ctr (el0 ch) (el1 ch) (el2 ch) 0 0) in
      run_pos n' ((ph + 1) mod 27) md rnd
        (Arr3 (ch0 c) (ch1 c) (ch2 c)) (pos_step ph md rnd ch pos)
  end.

(** One step of pixel [i] in chaser mode. *)
Definition advance (i : ix3) (p : Z) : Z :=
  match i with
  | i0 | i2 => (p + 1) mod 24
  | i1 => (p - 1) mod 24
  end.

(** * Proofs *)

(** ** Bounded case analysis *)

Lemma range_cases (n : nat) (P : Z -> Prop) :
  Forall P (map Z.of_nat (seq 0 n)) ->
  forall z, 0 <= z < Z.of_nat n -> P z.
Proof.
  intros HF z Hz.
  rewrite Forall_forall in HF. apply HF.
  replace z with (Z.of_nat (Z.to_nat z)) by lia.
  apply in_map, in_seq. lia.
Qed.

(** Split a goal about [z] into one goal per value of [0 .. n-1]; the
    hypotheses that mention [z] must have been reverted. *)
Ltac cases_of z n :=
  pattern z; apply (range_cases n); [ | simpl; lia ];
  let l := eval vm_compute in (map Z.of_nat (seq 0 n)) in
  change (map Z.of_nat (seq 0 n)) with l;
  repeat apply Forall_cons; [ .. | apply Forall_nil ]; cbv beta.

Lemma rom_pp_total (i : Z) :
  0 <= i <= 72 -> exists v, rom pp i = Some v /\ 0 <= v <= 255.
Proof.
  intros H. cases_of i 73%nat; eexists; (split; [reflexivity | lia]).
Qed.

Lemma rom_colors_total (i : Z) :
  0 <= i <= 11 -> exists v, rom colors i = Some v /\ 0 <= v <= 255.
Proof.
  intros H. cases_of i 12%nat; eexists; (split; [reflexivity | lia]).
Qed.

Lemma rom_in_range (t : list Z) (i v : Z) :
  rom t i = Some v -> 0 <= i < Z.of_nat (length t).
Proof.
  unfold rom. destruct (i <? 0) eqn:E; [discriminate |].
  intros H. apply Z.ltb_ge in E.
  assert (Hn : nth_error t (Z.to_nat i) <> None) by congruence.
  apply nth_error_Some in Hn. split; [lia | apply Nat2Z.inj_lt in Hn; lia].
Qed.

Lemma select_component_range (phase : Z) (pos col : arr3) :
  0 <= phase <= 26 -> all3 ring_range pos ->
  select_component phase pos col = 72 \/
  0 <= select_component phase pos col <= 71.
Proof.
  intros Hp (H0 & H1 & H2). unfold ring_range in *.
  cases_of phase 27%nat; cbn [select_component get3];
    match goal with |- context [if ?c then _ else _] => destruct c end;
    unfold u8; try rewrite Z.mod_small by lia; lia.
Qed.

Lemma drive_ports_frame (s : state) :
  0 <= intt s <= 72 ->
  exists da ca db cb, drive_ports s = Some (with_ports da ca db cb s).
Proof.
  destruct s as [dbg cc md wd pos col ph chase colcnt rn rnd el prev
                 t da ca db cb pa pac pb pbc].
  cbn [intt]. intros H.
  cases_of t 73%nat; do 4 eexists; cbv -[Z.lor]; reflexivity.
Qed.

Lemma interrupt_unfold (s : state) :
  0 <= LedComTimePhase s <= 26 -> all3 ring_range (LedPos s) ->
  exists da ca db cb,
    interrupt s =
      (s' <- pattern_step
               (with_ports da ca db cb
                  (set_intt (select_component (LedComTimePhase s) (LedPos s)
                               (LedCol s)) s)) ;;
       Some (set_LedComTimePhase (u8 (LedComTimePhase s' + 1)) s')).
Proof.
  intros Hp Hpos. unfold interrupt.
  destruct (select_component_range _ _ (LedCol s) Hp Hpos) as [E | E];
    match goal with
    | |- context [drive_ports ?s0] =>
        destruct (drive_ports_frame s0) as (da & ca & db & cb & ->);
        [ destruct s; cbv [set_intt intt] in *; lia | ]
    end;
    exists da, ca, db, cb; reflexivity.
Qed.

(** Symbolic execution of the model on a state given by its fields. *)
Ltac exec :=
  cbv [pattern_step with_ports count_down move_pixel reload draw step_color
       load_color end_of_tock ir_detected reset_irwatchdog preset_irwatchdog
       ir_led_off get3 put3 el0 el1 el2
       set_debugstatus set_colorcount set_mode set_irwatchdog set_LedPos
       set_LedCol set_LedComTimePhase set_LedChaseCount set_LedColorCount
       set_randomnr set_randomposns set_elapsedtocks set_previoustocks
       set_intt set_intda set_intca set_intdb set_intcb set_PA set_PAC
       set_PB set_PBC
       debugstatus colorcount mode irwatchdog LedPos LedCol LedComTimePhase
       LedChaseCount LedColorCount randomnr randomposns elapsedtocks
       previoustocks intt intda intca intdb intcb PA PAC PB PBC].

Ltac exec_in H :=
  cbv [pattern_step with_ports count_down move_pixel reload draw step_color
       load_color end_of_tock ir_detected reset_irwatchdog preset_irwatchdog
       ir_led_off get3 put3 el0 el1 el2
       set_debugstatus set_colorcount set_mode set_irwatchdog set_LedPos
       set_LedCol set_LedComTimePhase set_LedChaseCount set_LedColorCount
       set_randomnr set_randomposns set_elapsedtocks set_previoustocks
       set_intt set_intda set_intca set_intdb set_intcb set_PA set_PAC
       set_PB set_PBC
       debugstatus colorcount mode irwatchdog LedPos LedCol LedComTimePhase
       LedChaseCount LedColorCount randomnr randomposns elapsedtocks
       previoustocks intt intda intca intdb intcb PA PAC PB PBC] in H.

(** ** Small arithmetic facts used by the handler *)

Lemma u8_range (z : Z) : byte_range (u8 z).
Proof. unfold byte_range, u8. pose proof (Z.mod_pos_bound z 256). lia. Qed.

Lemma u16_range (z : Z) : word_range (u16 z).
Proof. unfold word_range, u16. pose proof (Z.mod_pos_bound z 65536). lia. Qed.

Lemma makerandom_range (r : Z) : word_range (makerandom r).
Proof. unfold makerandom. apply u16_range. Qed.

Lemma chase_up_spec (p : Z) :
  ring_range p -> chase_up p = (p + 1) mod 24 /\ ring_range (chase_up p).
Proof.
  unfold ring_range, chase_up, u8. intros H.
  destruct (22 <? p) eqn:E; [apply Z.ltb_lt in E | apply Z.ltb_ge in E].
  - replace p with 23 by lia. split; [reflexivity | lia].
  - rewrite !Z.mod_small by lia. lia.
Qed.

Lemma chase_down_spec (p : Z) :
  ring_range p -> chase_down p = (p - 1) mod 24 /\ ring_range (chase_down p).
Proof.
  unfold ring_range, chase_down, u8. intros H.
  destruct (p <? 1) eqn:E; [apply Z.ltb_lt in E | apply Z.ltb_ge in E].
  - replace p with 0 by lia. split; [reflexivity | lia].
  - rewrite !Z.mod_small by lia. lia.
Qed.

(** A draw that passes the test [(randomnr & 0x18) != 0x18] is a ring
    position. *)
Lemma accepted_draw_range (r : Z) :
  0 <= r -> Z.land r 0x18 <> 0x18 -> ring_range (Z.land r 0x1f).
Proof.
  intros Hr Hne.
  assert (E24 : Z.land r 0x18 = Z.land (Z.land r 0x1f) 0x18)
    by (rewrite <- Z.land_assoc; reflexivity).
  rewrite E24 in Hne.
  change 0x1f with (Z.ones 5) in *. rewrite Z.land_ones in * by lia.
  pose proof (Z.mod_pos_bound r (2 ^ 5) ltac:(lia)) as Hm.
  change (2 ^ 5) with 32 in *.
  revert Hne. generalize (r mod 32) Hm. clear. intros m Hm.
  assert (Hm' : 0 <= m < Z.of_nat 32) by (simpl; lia). clear Hm.
  cases_of m 32%nat; unfold ring_range; intros; try lia;
    exfalso; apply Hne; reflexivity.
Qed.

Lemma draw_value_range (r : Z) :
  0 <= r -> Z.land r 0x18 <> 0x18 -> ring_range (u8 (Z.land r 0x1f)).
Proof.
  intros Hr Hne. pose proof (accepted_draw_range r Hr Hne) as H.
  unfold ring_range, u8 in *. rewrite Z.mod_small by lia. exact H.
Qed.

Ltac bools :=
  repeat match goal with
  | H : (_ <? _) = true |- _ => apply Z.ltb_lt in H
  | H : (_ <? _) = false |- _ => apply Z.ltb_ge in H
  | H : (_ <=? _) = true |- _ => apply Z.leb_le in H
  | H : (_ <=? _) = false |- _ => apply Z.leb_gt in H
  | H : (_ =? _) = true |- _ => apply Z.eqb_eq in H
  | H : (_ =? _) = false |- _ => apply Z.eqb_neq in H
  | H : negb _ = true |- _ => apply negb_true_iff in H
  | H : negb _ = false |- _ => apply negb_false_iff in H
  end.

(** Linear arithmetic with the truncations written out. *)
Ltac arith :=
  unfold u8, u16, irwatchdogtimeout, chaserpositiontargetcount0,
    chaserpositiontargetcount1, chaserpositiontargetcount2,
    chasercolortargetcount in *;
  Z.div_mod_to_equations; lia.

Ltac split_ifs :=
  repeat match goal with
  | |- context [if ?c then _ else _] => destruct c eqn:?
  end.

(** Case analysis of one interrupt on a state that satisfies [HI : Inv s]:
    one goal per phase and per branch taken, with the handler executed. *)
Ltac by_phase s HI :=
  destruct HI as [Hph Hpos Hrnd Hcc Hdbg Hmode Hwd Hcol Hchase Hcolcnt Hrn
                  Hel Hprev];
  destruct (interrupt_unfold s Hph Hpos) as (da' & ca' & db' & cb' & ->);
  destruct s as [dbg cc md wd [p0 p1 p2] [c0 c1 c2] ph [k0 k1 k2] colcnt rn
                 [r0 r1 r2] el prev t da ca db cb pa pac pb pbc];
  unfold all3, ring_range, byte_range, word_range, irwatchdogtimeout in *;
  exec_in Hph; exec_in Hpos; exec_in Hrnd; exec_in Hcc; exec_in Hdbg;
  exec_in Hmode; exec_in Hwd; exec_in Hcol; exec_in Hchase; exec_in Hcolcnt;
  exec_in Hrn; exec_in Hel; exec_in Hprev;
  cases_of ph 27%nat; exec; split_ifs; exec; bools;
  repeat match goal with
  | |- context [rom colors ?k] =>
      let v := fresh "v" in let Ev := fresh "Ev" in let Hv := fresh "Hv" in
      destruct (rom_colors_total k ltac:(lia)) as (v & Ev & Hv); rewrite Ev
  end.

Ltac dbg_cases :=
  match goal with
  | H : In _ [0; 8; 64; 72] |- _ =>
      simpl in H; destruct H as [<- | [<- | [<- | [<- | []]]]]
  end.

(** ** Every interrupt keeps the invariant and never faults *)

Lemma interrupt_Inv (s : state) :
  Inv s -> exists s', interrupt s = Some s' /\ Inv s'.
Proof.
  intros HI. by_phase s HI;
    (eexists; split; [reflexivity | ]); constructor;
    unfold all3, ring_range, byte_range, word_range, irwatchdogtimeout;
    exec;
    repeat match goal with
    | |- 0 <= u8 (Z.land _ _) <= 23 =>
        apply draw_value_range; [lia | assumption]
    | |- 0 <= u8 _ <= 255 => apply u8_range
    | |- 0 <= u16 _ <= 65535 => apply u16_range
    | |- 0 <= makerandom _ <= 65535 => apply makerandom_range
    | |- 0 <= chase_up _ <= 23 => apply chase_up_spec; unfold ring_range; lia
    | |- 0 <= chase_down _ <= 23 =>
        apply chase_down_spec; unfold ring_range; lia
    | |- In _ _ => dbg_cases; vm_compute; tauto
    | |- 0 <= _ <= _ => arith
    | |- _ /\ _ => split
    end;
    try assumption; try arith.
Qed.

(** Effect of one interrupt on the display index and on the time base. *)
Lemma interrupt_timebase (s s' : state) :
  Inv s -> interrupt s = Some s' ->
  intt s' = select_component (LedComTimePhase s) (LedPos s) (LedCol s) /\
  LedComTimePhase s' = (LedComTimePhase s + 1) mod 27 /\
  elapsedtocks s' =
    u16 (elapsedtocks s + (if LedComTimePhase s =? 26 then 1 else 0)) /\
  previoustocks s' = previoustocks s.
Proof.
  intros HI. revert s'. by_phase s HI; intros s' E; injection E as <-; exec;
    (split; [reflexivity | split; [reflexivity | split; [ | reflexivity]]]);
    arith.
Qed.

(** Effect of one interrupt on the presence state. *)
Lemma interrupt_presence (s s' : state) :
  Inv s -> interrupt s = Some s' ->
  if LedComTimePhase s =? 26 then
    if irwatchdog s <? irwatchdogtimeout
    then mode s' = mode s /\ irwatchdog s' = irwatchdog s + 1 /\
         debugstatus s' = Z.lor (debugstatus s) SETPA6
    else mode s' = 0 /\ irwatchdog s' = irwatchdog s /\ debugstatus s' = 0
  else mode s' = mode s /\ irwatchdog s' = irwatchdog s /\
       debugstatus s' = debugstatus s.
Proof.
  intros HI. revert s'. by_phase s HI; intros s' E; injection E as <-; exec;
    unfold irwatchdogtimeout;
    repeat match goal with
    | |- context [if ?c then _ else _] =>
        let B := fresh "B" in destruct c eqn:B; bools; try lia
    end;
    repeat split; arith.
Qed.

Lemma boot_Inv : Inv boot.
Proof.
  constructor; vm_compute; try tauto; repeat split; discriminate.
Qed.

Lemma step_Inv (s s' : state) : Inv s -> step s s' -> Inv s'.
Proof.
  intros HI Hs. destruct Hs as [s s' E | s | s | s | s ttt | s].
  - destruct (interrupt_Inv s HI) as (s1 & E1 & HI1). congruence.
  - destruct HI, s; constructor; exec; try assumption.
    unfold irwatchdogtimeout; lia.
  - destruct HI, s; constructor; exec; try assumption.
    right; reflexivity.
  - destruct HI, s; constructor; exec; exec_in inv_dbg0; try assumption.
    dbg_cases; vm_compute; tauto.
  - destruct HI, s; constructor; exec; try assumption. apply u16_range.
  - destruct HI, s; constructor; exec; assumption.
Qed.

Lemma ir_detected_steps (s : state) :
  exists s1 s2, step s s1 /\ step s1 s2 /\ step s2 (ir_detected s).
Proof.
  exists (reset_irwatchdog s), (set_mode 1 (reset_irwatchdog s)).
  split; [apply step_reset | split; [apply step_mode | apply step_status]].
Qed.

Lemma ir_detected_Inv (s : state) : Inv s -> Inv (ir_detected s).
Proof.
  intros HI. destruct (ir_detected_steps s) as (s1 & s2 & H1 & H2 & H3).
  eauto using step_Inv.
Qed.

Lemma ir_detected_reachable (s : state) :
  reachable s -> reachable (ir_detected s).
Proof.
  intros Hr. destruct (ir_detected_steps s) as (s1 & s2 & H1 & H2 & H3).
  eauto using reach_step.
Qed.

Lemma reachable_Inv (s : state) : reachable s -> Inv s.
Proof.
  induction 1 as [ | s s' _ IH Hs]; [apply boot_Inv | eapply step_Inv; eauto].
Qed.

Lemma ticks_S (n : nat) (s : state) :
  ticks (S n) s = (s' <- interrupt s ;; ticks n s').
Proof. reflexivity. Qed.

Lemma ticks_Inv (n : nat) (s : state) :
  Inv s -> exists s', ticks n s = Some s' /\ Inv s'.
Proof.
  revert s. induction n as [ | n IH]; intros s HI.
  - exists s. split; [reflexivity | exact HI].
  - rewrite ticks_S. destruct (interrupt_Inv s HI) as (s1 & -> & HI1).
    apply IH, HI1.
Qed.

Lemma ticks_add (n m : nat) (s : state) :
  ticks (n + m) s = (s' <- ticks n s ;; ticks m s').
Proof.
  revert s. induction n as [ | n IH]; intros s; [reflexivity | ].
  change (S n + m)%nat with (S (n + m)). rewrite !ticks_S.
  destruct (interrupt s); [apply IH | reflexivity].
Qed.

(** ** Runs of interrupts *)

Lemma tocks_within_S (ph : Z) (n : nat) :
  0 <= ph <= 26 ->
  tocks_within ph (S n) =
    (if ph =? 26 then 1 else 0) + tocks_within ((ph + 1) mod 27) n.
Proof.
  intros H. unfold tocks_within. rewrite Nat2Z.inj_succ.
  destruct (ph =? 26) eqn:E; bools.
  - subst ph. change ((26 + 1) mod 27) with 0.
    replace (26 + Z.succ (Z.of_nat n)) with (Z.of_nat n + 1 * 27) by lia.
    rewrite Z.div_add by lia. rewrite Z.add_0_l. lia.
  - rewrite (Z.mod_small (ph + 1)), Z.add_0_l by lia. f_equal. lia.
Qed.

Lemma ticks_closed (n : nat) (s s' : state) :
  Inv s -> ticks n s = Some s' ->
  Inv s' /\
  LedComTimePhase s' = (LedComTimePhase s + Z.of_nat n) mod 27 /\
  elapsedtocks s' =
    u16 (elapsedtocks s + tocks_within (LedComTimePhase s) n) /\
  previoustocks s' = previoustocks s.
Proof.
  revert s. induction n as [ | n IH]; intros s HI H.
  - injection H as <-. split; [exact HI | ].
    destruct HI. unfold tocks_within, word_range in *.
    rewrite Z.add_0_r, Z.mod_small, Z.div_small, Z.add_0_r by lia.
    unfold u16. rewrite Z.mod_small by lia. auto.
  - rewrite ticks_S in H. destruct (interrupt_Inv s HI) as (s1 & E1 & HI1).
    rewrite E1 in H.
    destruct (interrupt_timebase s s1 HI E1) as (_ & P1 & T1 & A1).
    destruct (IH s1 HI1 H) as (HI' & P' & T' & A').
    split; [exact HI' | ].
    rewrite P', T', A', P1, T1, A1.
    rewrite tocks_within_S by exact (inv_phase s HI).
    split; [ | split; [ | reflexivity]].
    + rewrite Nat2Z.inj_succ, Z.add_mod_idemp_l by lia. f_equal. lia.
    + unfold u16. rewrite Z.add_mod_idemp_l by lia. f_equal. lia.
Qed.

(** With no IR pulse, the presence state after [n] interrupts is fixed by
    the number [k] of tocks among them. *)
Lemma watchdog_run (n : nat) (s s' : state) :
  Inv s -> ticks n s = Some s' ->
  let k := tocks_within (LedComTimePhase s) n in
  if irwatchdog s + k <=? irwatchdogtimeout
  then mode s' = mode s /\ irwatchdog s' = irwatchdog s + k /\
       (k = 0 -> debugstatus s' = debugstatus s)
  else mode s' = 0 /\ irwatchdog s' = irwatchdogtimeout /\
       debugstatus s' = 0.
Proof.
  revert s. induction n as [ | n IH]; intros s HI H k; subst k.
  - injection H as <-. destruct HI.
    unfold tocks_within. rewrite Z.add_0_r, Z.div_small, Z.add_0_r by lia.
    destruct (irwatchdog s <=? irwatchdogtimeout) eqn:E; bools; [auto | lia].
  - rewrite ticks_S in H. destruct (interrupt_Inv s HI) as (s1 & E1 & HI1).
    rewrite E1 in H.
    destruct (interrupt_timebase s s1 HI E1) as (_ & P1 & _).
    pose proof (interrupt_presence s s1 HI E1) as W.
    specialize (IH s1 HI1 H). cbv zeta in IH.
    rewrite tocks_within_S by exact (inv_phase s HI). rewrite P1 in IH.
    assert (K : 0 <= tocks_within ((LedComTimePhase s + 1) mod 27) n).
    { unfold tocks_within. apply Z.div_pos; [ | lia].
      pose proof (Z.mod_pos_bound (LedComTimePhase s + 1) 27). lia. }
    pose proof (inv_wd s HI) as Hwd. pose proof (inv_wd s1 HI1) as Hwd1.
    destruct (LedComTimePhase s =? 26).
    + destruct (irwatchdog s <? irwatchdogtimeout) eqn:B; bools;
        destruct W as (Wm & Ww & Wd); rewrite Wm, Ww in IH.
      * replace (irwatchdog s + (1 + tocks_within ((LedComTimePhase s + 1) mod 27) n))
          with (irwatchdog s + 1 + tocks_within ((LedComTimePhase s + 1) mod 27) n)
          by lia.
        destruct (_ <=? _) eqn:B'; bools.
        -- destruct IH as (? & ? & ?). repeat split; auto. lia.
        -- exact IH.
      * destruct (irwatchdog s + tocks_within _ n <=? _) eqn:B1; bools;
          destruct (irwatchdog s + (1 + tocks_within _ n) <=? _) eqn:B2; bools;
          lia.
    + destruct W as (Wm & Ww & Wd). rewrite Wm, Ww, Wd in IH.
      rewrite Z.add_0_l. exact IH.
Qed.

(** * Presence protocol *)

(** C1 (amended).  From a state in mode 1 whose watchdog has just been
    reset to 0, and with no IR pulse seen afterwards, the mode is still 1
    after every number [k <= 4444] of tocks (the watchdog then equals [k]);
    from the 4445th tock on the mode is 0 and [debugstatus] is 0. *)
Theorem watchdog_expires_at_tock_4445 (s : state) (n : nat) :
  Inv s -> mode s = 1 -> irwatchdog s = 0 ->
  exists s', ticks n s = Some s' /\
    let k := tocks_within (LedComTimePhase s) n in
    (k <= 4444 -> mode s' = 1 /\ irwatchdog s' = k) /\
    (4445 <= k -> mode s' = 0 /\ debugstatus s' = 0).
Proof.
  intros HI Hm Hw.
  destruct (ticks_Inv n s HI) as (s' & E & _).
  exists s'. split; [exact E | ].
  pose proof (watchdog_run n s s' HI E) as W. cbv zeta in *.
  rewrite Hm, Hw in W. unfold irwatchdogtimeout in W.
  destruct (_ <=? _) eqn:B; bools; split; intros; try lia;
    destruct W as (? & ? & ?); split; (assumption || lia).
Qed.

Lemma watchdog_expires_at_tock_4445_witness :
  exists s', ticks (27 * 4445) (ir_detected boot) = Some s' /\
    let k := tocks_within (LedComTimePhase (ir_detected boot)) (27 * 4445) in
    (k <= 4444 -> mode s' = 1 /\ irwatchdog s' = k) /\
    (4445 <= k -> mode s' = 0 /\ debugstatus s' = 0).
Proof.
  apply (watchdog_expires_at_tock_4445 (ir_detected boot) (27 * 4445)).
  - apply ir_detected_Inv, boot_Inv.
  - reflexivity.
  - reflexivity.
Defined.

(** C1 as stated fails: 4444 tocks after the watchdog was reset the mode
    is still 1. *)
Lemma still_alerted_at_tock_4444 :
  mode (ir_detected boot) = 1 /\ irwatchdog (ir_detected boot) = 0 /\
  tocks_within (LedComTimePhase (ir_detected boot)) (27 * 4444) = 4444 /\
  exists s', ticks (27 * 4444) (ir_detected boot) = Some s' /\
    mode s' = 1 /\ irwatchdog s' = 4444 /\ debugstatus s' = 0x48 /\
    ~ (mode s' = 0 /\ debugstatus s' = 0).
Proof.
  split; [reflexivity | split; [reflexivity | split; [reflexivity | ]]].
  eexists. split; [vm_compute; reflexivity | ].
  repeat split; intros [H _]; discriminate H.
Qed.

(** C2 (amended).  After the initialisation in [main] the mode is 0, the
    watchdog holds the timeout value 4444 and [debugstatus] is [SETPA6];
    with no IR input the mode is 0 after any number of interrupts, and
    the first phase-26 evaluation (the 27th interrupt) clears
    [debugstatus]. *)
Theorem boot_listening_watchdog_preset (n : nat) :
  mode boot = 0 /\ irwatchdog boot = irwatchdogtimeout /\
  debugstatus boot = SETPA6 /\ LedComTimePhase boot = 0 /\
  exists s', ticks n boot = Some s' /\
    mode s' = 0 /\ irwatchdog s' = irwatchdogtimeout /\
    ((n < 27)%nat -> debugstatus s' = SETPA6) /\
    ((27 <= n)%nat -> debugstatus s' = 0).
Proof.
  repeat (split; [reflexivity | ]).
  destruct (ticks_Inv n boot boot_Inv) as (s' & E & _).
  exists s'. split; [exact E | ].
  pose proof (watchdog_run n boot s' boot_Inv E) as W. cbv zeta in W.
  change (LedComTimePhase boot) with 0 in W.
  change (irwatchdog boot) with irwatchdogtimeout in W.
  change (mode boot) with 0 in W.
  change (debugstatus boot) with SETPA6 in W.
  unfold tocks_within in W. rewrite Z.add_0_l in W.
  assert (K : 0 <= Z.of_nat n / 27) by (apply Z.div_pos; lia).
  destruct (_ <=? _) eqn:B; bools.
  - assert (K0 : Z.of_nat n / 27 = 0) by lia.
    destruct W as (Wm & Ww & Wd).
    apply Z.div_small_iff in K0; [ | lia].
    split; [exact Wm | split; [lia | split]].
    + intros _. apply Wd. apply Z.div_small. lia.
    + intros Hn. lia.
  - destruct W as (Wm & Ww & Wd).
    split; [exact Wm | split; [exact Ww | split]].
    + intros Hn.
      assert (Z.of_nat n / 27 = 0) as K0 by (apply Z.div_small; lia). lia.
    + intros _. exact Wd.
Qed.

Lemma boot_listening_watchdog_preset_witness :
  mode boot = 0 /\ irwatchdog boot = irwatchdogtimeout /\
  debugstatus boot = SETPA6 /\ LedComTimePhase boot = 0 /\
  exists s', ticks 27 boot = Some s' /\
    mode s' = 0 /\ irwatchdog s' = irwatchdogtimeout /\
    ((27 < 27)%nat -> debugstatus s' = SETPA6) /\
    ((27 <= 27)%nat -> debugstatus s' = 0).
Proof. apply (boot_listening_watchdog_preset 27). Defined.

(** C2 as stated fails: [main] starts in mode 0, not in mode 1. *)
Lemma boot_mode_is_not_alerted : mode boot = 0 /\ mode boot <> 1.
Proof. split; [reflexivity | discriminate]. Qed.

(** * Time base *)

(** C3.  In a run of timer interrupts from the initial state the phase
    counter after [n] interrupts is [n mod 27] and [tocks()] returns
    [n / 27] modulo 2^16; the next interrupt adds 1 to it exactly when it
    is entered in phase 26, going from 65535 to 0, and leaves it unchanged
    in the other 26 phases. *)
Theorem tocks_advance_in_phase_26 (n : nat) :
  exists s s', ticks n boot = Some s /\ interrupt s = Some s' /\
    LedComTimePhase s = Z.of_nat n mod 27 /\
    tocks s = (Z.of_nat n / 27) mod 65536 /\
    tocks s' = (tocks s + (if LedComTimePhase s =? 26 then 1 else 0))
                 mod 65536 /\
    (LedComTimePhase s = 26 -> tocks s < 65535 -> tocks s' = tocks s + 1) /\
    (LedComTimePhase s = 26 -> tocks s = 65535 -> tocks s' = 0) /\
    (LedComTimePhase s <> 26 -> tocks s' = tocks s).
Proof.
  destruct (ticks_Inv n boot boot_Inv) as (s & E & HI).
  destruct (interrupt_Inv s HI) as (s' & E' & _).
  exists s, s'. split; [exact E | split; [exact E' | ]].
  destruct (ticks_closed n boot s boot_Inv E) as (_ & P & T & _).
  destruct (interrupt_timebase s s' HI E') as (_ & _ & T' & _).
  change (LedComTimePhase boot) with 0 in *.
  change (elapsedtocks boot) with 0 in T.
  unfold tocks_within in T. rewrite !Z.add_0_l in *.
  pose proof (inv_tocks s HI) as R. unfold word_range in R.
  unfold tocks, u16 in *.
  split; [exact P | split; [exact T | split; [exact T' | ]]].
  rewrite T'. clear T'.
  split; [ | split].
  - intros Hp Hlt. rewrite Hp. apply Z.mod_small. lia.
  - intros Hp Hmax. rewrite Hp, Hmax. reflexivity.
  - intros Hp. apply Z.eqb_neq in Hp. rewrite Hp, Z.add_0_r.
    apply Z.mod_small. lia.
Qed.

Lemma tocks_advance_in_phase_26_witness :
  exists s s', ticks 26 boot = Some s /\ interrupt s = Some s' /\
    LedComTimePhase s = Z.of_nat 26 mod 27 /\
    tocks s = (Z.of_nat 26 / 27) mod 65536 /\
    tocks s' = (tocks s + (if LedComTimePhase s =? 26 then 1 else 0))
                 mod 65536 /\
    (LedComTimePhase s = 26 -> tocks s < 65535 -> tocks s' = tocks s + 1) /\
    (LedComTimePhase s = 26 -> tocks s = 65535 -> tocks s' = 0) /\
    (LedComTimePhase s <> 26 -> tocks s' = tocks s).
Proof. apply (tocks_advance_in_phase_26 26). Defined.

(** The 27th interrupt produces the first tock. *)
Example first_tock :
  exists s26 s27,
    ticks 26 boot = Some s26 /\ tocks s26 = 0 /\
    ticks 27 boot = Some s27 /\ tocks s27 = 1 /\ LedComTimePhase s27 = 0.
Proof.
  eexists; eexists.
  split; [vm_compute; reflexivity | split; [reflexivity | ]].
  split; [vm_compute; reflexivity | split; reflexivity].
Qed.

(** ** Waiting for tocks *)

Lemma tocks_within_add (ph : Z) (n m : nat) :
  tocks_within ph (n + m) =
    tocks_within ph n + tocks_within ((ph + Z.of_nat n) mod 27) m.
Proof.
  unfold tocks_within. rewrite Nat2Z.inj_add.
  set (a := ph + Z.of_nat n).
  replace (ph + (Z.of_nat n + Z.of_nat m)) with (a + Z.of_nat m) by (subst a; lia).
  rewrite (Z.div_mod a 27) at 1 by lia.
  replace (27 * (a / 27) + a mod 27 + Z.of_nat m)
    with (a mod 27 + Z.of_nat m + (a / 27) * 27) by lia.
  rewrite Z.div_add by lia. lia.
Qed.

Lemma waituntiltocks_cons (p : poll) (env : list poll) (ttt m : Z) (s : state) :
  waituntiltocks (p :: env) ttt m s =
    match ticks (fired p) s with
    | None => Fault
    | Some s1 =>
        if u16 (tocks s1 - previoustocks s1) <? ttt
        then waituntiltocks env ttt m (monitor_poll m p s1)
        else Returned (set_previoustocks (u16 (previoustocks s1 + ttt)) s1) env
    end.
Proof. reflexivity. Qed.

Lemma ir_detected_frame (s : state) :
  LedComTimePhase (ir_detected s) = LedComTimePhase s /\
  elapsedtocks (ir_detected s) = elapsedtocks s /\
  previoustocks (ir_detected s) = previoustocks s.
Proof. destruct s. repeat split. Qed.

Lemma monitor_poll_frame (m : Z) (p : poll) (s : state) :
  Inv s ->
  Inv (monitor_poll m p s) /\
  LedComTimePhase (monitor_poll m p s) = LedComTimePhase s /\
  elapsedtocks (monitor_poll m p s) = elapsedtocks s /\
  previoustocks (monitor_poll m p s) = previoustocks s.
Proof.
  intros HI. unfold monitor_poll.
  destruct (negb (m =? 0)); [ | auto].
  destruct (Z.land (pa_in p) 16 =? 0); [ | auto].
  split; [apply ir_detected_Inv, HI | ].
  apply ir_detected_frame.
Qed.

(** One evaluation of the loop condition. *)
Lemma wait_step (p : poll) (env : list poll) (ttt m : Z) (s : state) :
  Inv s ->
  exists s1,
    Inv s1 /\
    LedComTimePhase s1 = (LedComTimePhase s + Z.of_nat (fired p)) mod 27 /\
    elapsedtocks s1 =
      u16 (elapsedtocks s + tocks_within (LedComTimePhase s) (fired p)) /\
    previoustocks s1 = previoustocks s /\
    waituntiltocks (p :: env) ttt m s =
      if u16 (elapsedtocks s1 - previoustocks s) <? ttt
      then waituntiltocks env ttt m (monitor_poll m p s1)
      else Returned (set_previoustocks (u16 (previoustocks s + ttt)) s1) env.
Proof.
  intros HI. destruct (ticks_Inv (fired p) s HI) as (s1 & E & HI1).
  destruct (ticks_closed (fired p) s s1 HI E) as (_ & P & T & A).
  exists s1. repeat (split; [assumption | ]).
  rewrite waituntiltocks_cons, E. unfold tocks. rewrite A. reflexivity.
Qed.

Lemma fired_upto_0 (p : poll) (env : list poll) :
  fired_upto (p :: env) 0 = fired p.
Proof. unfold fired_upto. simpl. lia. Qed.

Lemma fired_upto_S (p : poll) (env : list poll) (j : nat) :
  fired_upto (p :: env) (S j) = (fired p + fired_upto env j)%nat.
Proof. reflexivity. Qed.

Lemma observed_0 (s : state) (p : poll) (env : list poll) :
  observed s (p :: env) 0 =
    u16 (elapsedtocks s + tocks_within (LedComTimePhase s) (fired p)).
Proof. unfold observed. rewrite fired_upto_0. reflexivity. Qed.

Lemma observed_S (s s1 : state) (p : poll) (env : list poll) (j : nat) :
  LedComTimePhase s1 = (LedComTimePhase s + Z.of_nat (fired p)) mod 27 ->
  elapsedtocks s1 =
    u16 (elapsedtocks s + tocks_within (LedComTimePhase s) (fired p)) ->
  observed s (p :: env) (S j) = observed s1 env j.
Proof.
  intros P T. unfold observed.
  rewrite fired_upto_S, tocks_within_add, P, T. unfold u16.
  rewrite Z.add_mod_idemp_l by lia. f_equal. lia.
Qed.

Lemma diff_at_S (s s1 : state) (p : poll) (env : list poll) (j : nat) :
  LedComTimePhase s1 = (LedComTimePhase s + Z.of_nat (fired p)) mod 27 ->
  elapsedtocks s1 =
    u16 (elapsedtocks s + tocks_within (LedComTimePhase s) (fired p)) ->
  previoustocks s1 = previoustocks s ->
  diff_at s (p :: env) (S j) = diff_at s1 env j.
Proof.
  intros P T A. unfold diff_at. rewrite (observed_S s s1) by assumption.
  rewrite A. reflexivity.
Qed.

(** The state in which the wait continues after a poll that did not end
    it. *)
Lemma wait_continues (p : poll) (env : list poll) (ttt m : Z) (s : state) :
  Inv s ->
  exists s2,
    Inv s2 /\ previoustocks s2 = previoustocks s /\
    (forall env' j, observed s (p :: env') (S j) = observed s2 env' j) /\
    (forall env' j, diff_at s (p :: env') (S j) = diff_at s2 env' j) /\
    elapsedtocks s2 = observed s (p :: env) 0 /\
    LedComTimePhase s2 = (LedComTimePhase s + Z.of_nat (fired p)) mod 27 /\
    waituntiltocks (p :: env) ttt m s =
      if diff_at s (p :: env) 0 <? ttt
      then waituntiltocks env ttt m s2
      else Returned (set_previoustocks (u16 (previoustocks s + ttt)) s2) env.
Proof.
  intros HI.
  destruct (wait_step p env ttt m s HI) as (s1 & HI1 & P & T & A & W).
  destruct (monitor_poll_frame m p s1 HI1) as (HI2 & P2 & T2 & A2).
  unfold diff_at. rewrite observed_0, <- T.
  destruct (u16 (elapsedtocks s1 - previoustocks s) <? ttt) eqn:B.
  - exists (monitor_poll m p s1).
    split; [exact HI2 | split; [congruence | ]].
    split; [ | split; [ | split; [ | split]]].
    + intros. apply observed_S; congruence.
    + intros. apply diff_at_S; congruence.
    + congruence.
    + congruence.
    + exact W.
  - exists s1.
    split; [exact HI1 | split; [exact A | ]].
    split; [ | split; [ | split; [ | split]]].
    + intros. apply observed_S; assumption.
    + intros. apply diff_at_S; assumption.
    + reflexivity.
    + exact P.
    + exact W.
Qed.

Lemma wait_returns_at (ttt m : Z) (env : list poll) :
  forall (s : state) (j : nat),
    Inv s -> (j < length env)%nat ->
    (forall i, (i < j)%nat -> diff_at s env i < ttt) ->
    ttt <= diff_at s env j ->
    exists s',
      waituntiltocks env ttt m s = Returned s' (skipn (S j) env) /\
      Inv s' /\
      previoustocks s' = u16 (previoustocks s + ttt) /\
      tocks s' = observed s env j.
Proof.
  induction env as [ | p env IH]; intros s j HI Hj Hlt Hge.
  - simpl in Hj. lia.
  - destruct (wait_continues p env ttt m s HI)
      as (s2 & HI2 & A2 & O2 & D2 & T2 & _ & W).
    rewrite W. destruct j as [ | j].
    + apply Z.ltb_ge in Hge. rewrite Hge.
      eexists. split; [reflexivity | ].
      destruct s2, HI2. split; [ | split; [reflexivity | exact T2]].
      constructor; exec; try assumption. apply u16_range.
    + assert (H0 : diff_at s (p :: env) 0 < ttt) by (apply Hlt; lia).
      apply Z.ltb_lt in H0. rewrite H0.
      destruct (IH s2 j HI2) as (s' & E & HI' & A' & T').
      * simpl in Hj. lia.
      * intros i Hi. rewrite <- D2. apply Hlt. lia.
      * rewrite <- D2. exact Hge.
      * exists s'. rewrite O2, <- A2. auto.
Qed.

Lemma wait_spins (ttt m : Z) (env : list poll) :
  forall s : state,
    Inv s ->
    (forall i, (i < length env)%nat -> diff_at s env i < ttt) ->
    exists s',
      waituntiltocks env ttt m s = Spinning s' /\
      previoustocks s' = previoustocks s.
Proof.
  induction env as [ | p env IH]; intros s HI Hlt.
  - exists s. split; reflexivity.
  - destruct (wait_continues p env ttt m s HI)
      as (s2 & HI2 & A2 & O2 & D2 & T2 & _ & W).
    rewrite W.
    assert (H0 : diff_at s (p :: env) 0 < ttt) by (apply Hlt; simpl; lia).
    apply Z.ltb_lt in H0. rewrite H0.
    destruct (IH s2 HI2) as (s' & E & A').
    + intros i Hi. rewrite <- D2. apply Hlt. simpl. lia.
    + exists s'. split; [exact E | congruence].
Qed.

Lemma wait_result (ttt m : Z) (env : list poll) :
  forall (s s' : state) (rest : list poll),
    Inv s -> waituntiltocks env ttt m s = Returned s' rest ->
    Inv s' /\ previoustocks s' = u16 (previoustocks s + ttt).
Proof.
  induction env as [ | p env IH]; intros s s' rest HI E.
  - discriminate E.
  - destruct (wait_continues p env ttt m s HI)
      as (s2 & HI2 & A2 & _ & _ & _ & _ & W).
    rewrite W in E. destruct (_ <? _).
    + rewrite <- A2. apply (IH s2 s' rest HI2 E).
    + injection E as <- _. destruct s2, HI2.
      split; [ | reflexivity].
      constructor; exec; try assumption. apply u16_range.
Qed.

Lemma wait_never_faults (ttt m : Z) (env : list poll) :
  forall s : state, Inv s -> waituntiltocks env ttt m s <> Fault.
Proof.
  induction env as [ | p env IH]; intros s HI.
  - discriminate.
  - destruct (wait_continues p env ttt m s HI)
      as (s2 & HI2 & _ & _ & _ & _ & _ & W).
    rewrite W. destruct (_ <? _); [apply IH, HI2 | discriminate].
Qed.

Lemma waits_anchor (reqs : list (Z * Z)) :
  forall (env : list poll) (s s' : state) (rest : list poll),
    Inv s -> waits env reqs s = Returned s' rest ->
    previoustocks s' = u16 (previoustocks s + requested reqs).
Proof.
  induction reqs as [ | [ttt m] reqs IH]; intros env s s' rest HI E.
  - injection E as <- _. simpl. rewrite Z.add_0_r.
    pose proof (inv_prev s HI) as R. unfold word_range in R.
    unfold u16. rewrite Z.mod_small; lia.
  - cbn [waits] in E.
    destruct (waituntiltocks env ttt m s) as [s1 env1 | | ] eqn:W;
      try discriminate E.
    destruct (wait_result ttt m env s s1 env1 HI W) as (HI1 & A1).
    rewrite (IH env1 s1 s' rest HI1 E), A1. cbn [requested fold_right fst].
    fold (requested reqs). unfold u16.
    rewrite Z.add_mod_idemp_l by lia. f_equal. lia.
Qed.

(** A wait ends when the polls follow the tock counter closely enough:
    no more than 27 interrupts between two polls, and enough tocks left
    in [env].  The tocks it uses up are bounded. *)
Lemma wait_ends_from (ttt m : Z) (env : list poll) :
  forall s : state,
    Inv s -> 0 <= ttt <= 65535 -> fair env ->
    u16 (elapsedtocks s - previoustocks s) < ttt ->
    65535 - u16 (elapsedtocks s - previoustocks s) <= tocks_left s env ->
    exists s' rest,
      waituntiltocks env ttt m s = Returned s' rest /\ fair rest /\
      tocks_left s env - (65535 - u16 (elapsedtocks s - previoustocks s))
        <= tocks_left s' rest.
Proof.
  unfold tocks_left.
  induction env as [ | p env IH]; intros s HI Httt Hfair Hd Hn.
  - exfalso. pose proof (inv_phase s HI).
    unfold tocks_within in Hn. cbn [map list_sum fold_right Z.of_nat] in Hn.
    rewrite Z.add_0_r, Z.div_small in Hn by lia. lia.
  - destruct (wait_continues p env ttt m s HI)
      as (s2 & HI2 & A2 & _ & _ & T2 & P2 & W).
    rewrite W. clear W.
    inversion Hfair as [ | p' env' Hp Hrest]; subst. cbv beta in Hp.
    change (list_sum (map fired (p :: env)))
      with (fired p + list_sum (map fired env))%nat in *.
    rewrite tocks_within_add in *.
    rewrite observed_0 in T2.
    pose proof (inv_phase s HI) as Hph.
    assert (Hone : 0 <= tocks_within (LedComTimePhase s) (fired p) <= 1).
    { unfold tocks_within. split.
      - apply Z.div_pos; lia.
      - apply Z.lt_succ_r, Z.div_lt_upper_bound; lia. }
    pose proof (inv_tocks s HI) as Re. pose proof (inv_prev s HI) as Rp.
    unfold word_range in *.
    destruct (_ <? _) eqn:B; bools.
    + unfold diff_at in B. rewrite observed_0, <- T2 in B.
      destruct (IH s2 HI2 Httt Hrest) as (s' & rest & E & Hf & Hleft).
      * rewrite A2. exact B.
      * rewrite A2, P2. revert B Hd Hn. rewrite T2. unfold u16.
        generalize (tocks_within (LedComTimePhase s) (fired p)) Hone.
        generalize (tocks_within
                      ((LedComTimePhase s + Z.of_nat (fired p)) mod 27)
                      (list_sum (map fired env))).
        clear - Re Rp Httt. intros. Z.div_mod_to_equations. lia.
      * exists s', rest. split; [exact E | split; [exact Hf | ]].
        revert B Hd Hn Hleft. rewrite A2, P2, T2. unfold u16.
        generalize (tocks_within (LedComTimePhase s) (fired p)) Hone.
        generalize (tocks_within
                      ((LedComTimePhase s + Z.of_nat (fired p)) mod 27)
                      (list_sum (map fired env))).
        generalize (tocks_within (LedComTimePhase s') (list_sum (map fired rest))).
        clear - Re Rp Httt. intros. Z.div_mod_to_equations. lia.
    + eexists; eexists. split; [reflexivity | split; [exact Hrest | ]].
      replace (LedComTimePhase (set_previoustocks _ s2))
        with (LedComTimePhase s2) by (destruct s2; reflexivity).
      rewrite P2. revert Hd Hn. unfold u16.
      generalize (tocks_within (LedComTimePhase s) (fired p)) Hone.
      generalize (tocks_within
                    ((LedComTimePhase s + Z.of_nat (fired p)) mod 27)
                    (list_sum (map fired env))).
      clear - Re Rp Httt. intros. Z.div_mod_to_equations. lia.
Qed.

Lemma wait_ends (ttt m : Z) (env : list poll) (s : state) :
  Inv s -> 0 <= ttt <= 65535 -> fair env ->
  65536 <= tocks_left s env ->
  exists s' rest,
    waituntiltocks env ttt m s = Returned s' rest /\ fair rest /\
    tocks_left s env - 65536 <= tocks_left s' rest.
Proof.
  unfold tocks_left. intros HI Httt Hfair Hn.
  pose proof (inv_phase s HI) as Hph.
  destruct env as [ | p env].
  { exfalso. unfold tocks_within in Hn.
    cbn [map list_sum fold_right Z.of_nat] in Hn.
    rewrite Z.add_0_r, Z.div_small in Hn by lia. lia. }
  destruct (wait_continues p env ttt m s HI)
    as (s2 & HI2 & A2 & _ & _ & T2 & P2 & W).
  rewrite W. clear W.
  inversion Hfair as [ | p' env' Hp Hrest]; subst. cbv beta in Hp.
  change (list_sum (map fired (p :: env)))
    with (fired p + list_sum (map fired env))%nat in *.
  rewrite tocks_within_add in *.
  assert (Hone : 0 <= tocks_within (LedComTimePhase s) (fired p) <= 1).
  { unfold tocks_within. split.
    - apply Z.div_pos; lia.
    - apply Z.lt_succ_r, Z.div_lt_upper_bound; lia. }
  destruct (_ <? _) eqn:B; bools.
  - unfold diff_at in B. rewrite <- T2, <- A2 in B.
    pose proof (u16_range (elapsedtocks s2 - previoustocks s2)) as Rd.
    unfold word_range in Rd.
    destruct (wait_ends_from ttt m env s2 HI2 Httt Hrest B)
      as (s' & rest & E & Hf & Hleft).
    + unfold tocks_left. rewrite P2. lia.
    + exists s', rest. split; [exact E | split; [exact Hf | ]].
      unfold tocks_left in Hleft. rewrite P2 in Hleft. lia.
  - eexists; eexists. split; [reflexivity | split; [exact Hrest | ]].
    replace (LedComTimePhase (set_previoustocks _ s2))
      with (LedComTimePhase s2) by (destruct s2; reflexivity).
    rewrite P2. lia.
Qed.

Lemma waits_end (reqs : list (Z * Z)) :
  forall (env : list poll) (s : state),
    Inv s -> Forall (fun r => 0 <= fst r <= 65535) reqs -> fair env ->
    65536 * Z.of_nat (length reqs) <= tocks_left s env ->
    exists s' rest, waits env reqs s = Returned s' rest.
Proof.
  induction reqs as [ | [ttt m] reqs IH]; intros env s HI Hr Hfair Hn.
  - eexists; eexists; reflexivity.
  - inversion Hr as [ | r reqs' Httt Hr']; subst. cbn [fst] in Httt.
    cbn [length] in Hn. rewrite Nat2Z.inj_succ in Hn.
    destruct (wait_ends ttt m env s HI Httt Hfair) as (s1 & env1 & E & Hf & Hl);
      [lia | ].
    cbn [waits]. rewrite E.
    destruct (wait_result ttt m env s s1 env1 HI E) as (HI1 & _).
    apply (IH env1 s1 HI1 Hr' Hf). lia.
Qed.

(** The main loop stays inside the reachable states. *)
Lemma ticks_reachable (n : nat) :
  forall s s', reachable s -> ticks n s = Some s' -> reachable s'.
Proof.
  induction n as [ | n IH]; intros s s' Hr E.
  - injection E as <-. exact Hr.
  - rewrite ticks_S in E. destruct (interrupt s) as [s1 | ] eqn:E1;
      [ | discriminate E].
    apply (IH s1 s'); [ | exact E].
    apply (reach_step s s1 Hr), step_tick, E1.
Qed.

Lemma monitor_poll_reachable (m : Z) (p : poll) (s : state) :
  reachable s -> reachable (monitor_poll m p s).
Proof.
  intros Hr. unfold monitor_poll.
  destruct (negb (m =? 0)); [ | exact Hr].
  destruct (Z.land (pa_in p) 16 =? 0); [ | exact Hr].
  apply ir_detected_reachable, Hr.
Qed.

Lemma wait_reachable (ttt m : Z) (env : list poll) :
  forall s s' rest,
    reachable s -> waituntiltocks env ttt m s = Returned s' rest ->
    reachable s'.
Proof.
  induction env as [ | p env IH]; intros s s' rest Hr E.
  - discriminate E.
  - rewrite waituntiltocks_cons in E.
    destruct (ticks (fired p) s) as [s1 | ] eqn:E1; [ | discriminate E].
    pose proof (ticks_reachable (fired p) s s1 Hr E1) as Hr1.
    destruct (_ <? _).
    + apply (IH _ s' rest (monitor_poll_reachable m p s1 Hr1) E).
    + injection E as <- _. apply (reach_step s1 _ Hr1), step_anchor.
Qed.

Lemma main_cycle_reachable (env : list poll) (s s' : state) (rest : list poll) :
  reachable s -> main_cycle env s = Returned s' rest -> reachable s'.
Proof.
  intros Hr E. unfold main_cycle in E.
  destruct (waituntiltocks env transmitirpulseafter 1 s)
    as [s1 env1 | | ] eqn:W1; try discriminate E.
  pose proof (wait_reachable _ _ _ _ _ _ Hr W1) as Hr1.
  destruct (waituntiltocks env1 irpulsetime 0 s1)
    as [s2 env2 | | ] eqn:W2; try discriminate E.
  pose proof (wait_reachable _ _ _ _ _ _ Hr1 W2) as Hr2.
  apply (wait_reachable _ _ _ _ _ _ (reach_step _ _ Hr2 (step_led_off s2)) E).
Qed.

(** The first turn of the main loop: the carrier starts when [tocks()]
    is 4074, stops at 4076, and listening resumes at 4078. *)
Example first_main_cycle :
  exists s',
    main_cycle (repeat (Poll 27 0x10) 4078) boot = Returned s' [] /\
    tocks s' = 4078 /\ previoustocks s' = 4078 /\ mode s' = 0.
Proof. eexists. split; [vm_compute; reflexivity | repeat split]. Qed.

(** C4.  [waituntiltocks(ttt, monitor)] returns at the first poll at which
    the 16-bit difference [tocks() - previoustocks] is at least [ttt],
    and not before; on return [previoustocks] has advanced by [ttt]
    modulo 2^16, whatever [tocks()] returned at that poll.  After any list
    of waits the anchor is the starting anchor plus the sum of the
    requested durations modulo 2^16.  With polls that come at least once
    per tock the waits do return. *)
Theorem waituntiltocks_advances_anchor
    (s : state) (env : list poll) (ttt monitor : Z) :
  Inv s -> 0 <= ttt <= 65535 ->
  (forall j, (j < length env)%nat ->
     (forall i, (i < j)%nat -> diff_at s env i < ttt) ->
     ttt <= diff_at s env j ->
     exists s',
       waituntiltocks env ttt monitor s = Returned s' (skipn (S j) env) /\
       previoustocks s' = u16 (previoustocks s + ttt) /\
       tocks s' = observed s env j) /\
  ((forall i, (i < length env)%nat -> diff_at s env i < ttt) ->
     exists s',
       waituntiltocks env ttt monitor s = Spinning s' /\
       previoustocks s' = previoustocks s) /\
  (fair env -> 65536 <= tocks_left s env ->
     exists s' rest, waituntiltocks env ttt monitor s = Returned s' rest) /\
  (forall reqs s' rest,
     waits env reqs s = Returned s' rest ->
     previoustocks s' = u16 (previoustocks s + requested reqs)) /\
  (forall reqs,
     Forall (fun r => 0 <= fst r <= 65535) reqs -> fair env ->
     65536 * Z.of_nat (length reqs) <= tocks_left s env ->
     exists s' rest, waits env reqs s = Returned s' rest).
Proof.
  intros HI Httt. split; [ | split; [ | split; [ | split]]].
  - intros j Hj Hlt Hge.
    destruct (wait_returns_at ttt monitor env s j HI Hj Hlt Hge)
      as (s' & E & _ & A & T).
    exists s'. auto.
  - apply wait_spins, HI.
  - intros Hf Hn.
    destruct (wait_ends ttt monitor env s HI Httt Hf Hn) as (s' & rest & E & _).
    exists s', rest. exact E.
  - intros reqs s' rest. apply waits_anchor, HI.
  - intros reqs. apply waits_end, HI.
Qed.

Lemma waituntiltocks_advances_anchor_witness :
  (forall j, (j < length late_polls)%nat ->
     (forall i, (i < j)%nat -> diff_at boot late_polls i < 2) ->
     2 <= diff_at boot late_polls j ->
     exists s',
       waituntiltocks late_polls 2 1 boot
         = Returned s' (skipn (S j) late_polls) /\
       previoustocks s' = u16 (previoustocks boot + 2) /\
       tocks s' = observed boot late_polls j) /\
  ((forall i, (i < length late_polls)%nat -> diff_at boot late_polls i < 2) ->
     exists s',
       waituntiltocks late_polls 2 1 boot = Spinning s' /\
       previoustocks s' = previoustocks boot) /\
  (fair late_polls -> 65536 <= tocks_left boot late_polls ->
     exists s' rest, waituntiltocks late_polls 2 1 boot = Returned s' rest) /\
  (forall reqs s' rest,
     waits late_polls reqs boot = Returned s' rest ->
     previoustocks s' = u16 (previoustocks boot + requested reqs)) /\
  (forall reqs,
     Forall (fun r => 0 <= fst r <= 65535) reqs -> fair late_polls ->
     65536 * Z.of_nat (length reqs) <= tocks_left boot late_polls ->
     exists s' rest, waits late_polls reqs boot = Returned s' rest).
Proof.
  apply (waituntiltocks_advances_anchor boot late_polls 2 1).
  - exact boot_Inv.
  - lia.
Defined.

(** The overrun is not absorbed: the wait above returns when [tocks()]
    is 4, with the anchor at 2. *)
Example overrun_keeps_requested_step :
  exists s',
    waituntiltocks late_polls 2 1 boot = Returned s' [] /\
    previoustocks s' = 2 /\ tocks s' = 4.
Proof. eexists. split; [vm_compute; reflexivity | split; reflexivity]. Qed.

(** * Display multiplexer *)

Lemma masked_testbit (x b : Z) : 0 <= b -> masked x (2 ^ b) = Z.testbit x b.
Proof.
  intros Hb. unfold masked.
  destruct (Z.testbit x b) eqn:T.
  - apply negb_true_iff, Z.eqb_neq. intros E.
    assert (F : Z.testbit (Z.land x (2 ^ b)) b = true)
      by (rewrite Z.land_spec, T, Z.pow2_bits_true by lia; reflexivity).
    rewrite E, Z.bits_0 in F. discriminate F.
  - apply negb_false_iff, Z.eqb_eq, Z.bits_inj'. intros n Hn.
    rewrite Z.land_spec, Z.bits_0, Z.pow2_bits_eqb by lia.
    destruct (Z.eqb_spec b n) as [-> | _].
    + rewrite T. reflexivity.
    + apply andb_false_r.
Qed.

Lemma probe_separates (k q : Z) :
  9 <= k <= 26 -> 0 <= q <= 26 ->
  select_component q probe_pos probe_col
    = select_component k probe_pos probe_col ->
  q = k \/ q = k + 9 \/ q = k - 9 /\ 9 <= q.
Proof.
  intros Hk Hq.
  assert (Hk' : 0 <= k <= 26) by lia. revert Hk.
  cases_of k 27%nat; intros Hk9; try lia; clear Hk9;
    cases_of q 27%nat; intros E; vm_compute in E;
    first [discriminate E | lia].
Qed.

(** C5.  In each of the 27 phases the selection step yields either the
    sentinel 72 or one component LED index in 0..71, never both: it is
    the position of the pixel [pixel_of_phase] plus 24 times the channel
    when the intensity bit [bit_of_phase] of that pixel's colour is set,
    and 72 otherwise.  Phases 0..8 test the low bit of channel
    [phase mod 3] of pixel [phase / 3]; a phase [k] in 9..17 and the phase
    [k + 9] make the same high-bit selection, and no other phase does. *)
Theorem select_component_one_of (phase : Z) (pos col : arr3) :
  0 <= phase <= 26 -> all3 ring_range pos -> all3 byte_range col ->
  let t := select_component phase pos col in
  (t = 72 /\ ~ 0 <= t <= 71 \/ 0 <= t <= 71 /\ t <> 72) /\
  t = (if Z.testbit (get3 col (pixel_of_phase phase)) (bit_of_phase phase)
       then get3 pos (pixel_of_phase phase) + 24 * channel_of_phase phase
       else 72) /\
  (phase <= 8 ->
     pixel_of_phase phase = ix3_of (phase / 3) /\
     bit_of_phase phase = 2 * (phase mod 3)) /\
  (9 <= phase ->
     bit_of_phase phase = 2 * (phase mod 3) + 1 /\
     (phase <= 17 -> select_component (phase + 9) pos col = t) /\
     forall q, 0 <= q <= 26 ->
       (forall pos' col', all3 ring_range pos' -> all3 byte_range col' ->
          select_component q pos' col' = select_component phase pos' col') ->
       q = phase \/ q = phase + 9 \/ q = phase - 9 /\ 9 <= q).
Proof.
  intros Hp Hpos Hcol t. subst t.
  split; [ | split; [ | split]].
  - destruct (select_component_range phase pos col Hp Hpos) as [-> | H]; lia.
  - destruct pos as [p0 p1 p2], col as [c0 c1 c2].
    destruct Hpos as (H0 & H1 & H2). unfold ring_range in *. cbn [el0 el1 el2] in *.
    cases_of phase 27%nat;
      repeat match goal with
      | |- context [pixel_of_phase ?k] =>
          let v := eval vm_compute in (pixel_of_phase k) in
          change (pixel_of_phase k) with v
      | |- context [bit_of_phase ?k] =>
          let v := eval vm_compute in (bit_of_phase k) in
          change (bit_of_phase k) with v
      | |- context [channel_of_phase ?k] =>
          let v := eval vm_compute in (channel_of_phase k) in
          change (channel_of_phase k) with v
      end;
      cbv [select_component get3 el0 el1 el2];
      match goal with
      | |- context [masked ?c ?m] =>
          match goal with
          | |- context [Z.testbit c ?b] =>
              change m with (2 ^ b); rewrite (masked_testbit c b) by lia
          end
      end;
      destruct (Z.testbit _ _); try reflexivity;
      unfold u8; rewrite ?Z.mod_small by lia; lia.
  - cases_of phase 27%nat; intros H8; try lia; split; reflexivity.
  - intros H9. split; [ | split].
    + revert H9. cases_of phase 27%nat; intros H9; try lia; reflexivity.
    + revert H9. cases_of phase 27%nat; intros H9 H17; try lia; reflexivity.
    + intros q Hq Hsame. apply probe_separates; [lia | exact Hq | ].
      apply Hsame; vm_compute; intuition discriminate.
Qed.

Lemma select_component_one_of_witness :
  let t := select_component 13 (Arr3 0 8 16) (Arr3 0x03 0x0c 0x30) in
  (t = 72 /\ ~ 0 <= t <= 71 \/ 0 <= t <= 71 /\ t <> 72) /\
  t = (if Z.testbit (get3 (Arr3 0x03 0x0c 0x30) (pixel_of_phase 13))
            (bit_of_phase 13)
       then get3 (Arr3 0 8 16) (pixel_of_phase 13) + 24 * channel_of_phase 13
       else 72) /\
  (13 <= 8 ->
     pixel_of_phase 13 = ix3_of (13 / 3) /\
     bit_of_phase 13 = 2 * (13 mod 3)) /\
  (9 <= 13 ->
     bit_of_phase 13 = 2 * (13 mod 3) + 1 /\
     (13 <= 17 ->
        select_component (13 + 9) (Arr3 0 8 16) (Arr3 0x03 0x0c 0x30) = t) /\
     forall q, 0 <= q <= 26 ->
       (forall pos' col', all3 ring_range pos' -> all3 byte_range col' ->
          select_component q pos' col' = select_component 13 pos' col') ->
       q = 13 \/ q = 13 + 9 \/ q = 13 - 9 /\ 9 <= q).
Proof.
  apply (select_component_one_of 13 (Arr3 0 8 16) (Arr3 0x03 0x0c 0x30)).
  - lia.
  - unfold all3, ring_range; simpl; lia.
  - unfold all3, byte_range; simpl; lia.
Defined.

(** * Pin patterns *)

Lemma drive_ports_pins (s : state) (i : Z) :
  In (debugstatus s) [0; 0x08; 0x40; 0x48] -> 0 <= i <= 72 ->
  exists v s',
    rom pp i = Some v /\ drive_ports (set_intt i s) = Some s' /\
    (length (filter (driven_high s') led_pins) <= 1)%nat /\
    (length (filter (driven_low s') led_pins) <= 1)%nat /\
    (forall p, driven_high s' p = pin_is p (pin_of_code (Z.shiftr v 4))) /\
    (forall p, driven_low s' p = pin_is p (pin_of_code (Z.land v 0x0f))) /\
    (i <= 71 ->
       Z.shiftr v 4 <> Z.land v 0x0f /\
       pin_of_code (Z.shiftr v 4) <> None /\
       pin_of_code (Z.land v 0x0f) <> None) /\
    (i = 72 -> v = 0).
Proof.
  intros Hdbg Hi.
  destruct s as [dbg cc md wd pos col ph chase colcnt rn rnd el prev
                 t da ca db cb pa pac pb pbc].
  cbn [debugstatus] in Hdbg. revert Hdbg.
  cases_of i 73%nat; intros Hdbg; dbg_cases;
    (eexists; eexists;
     split; [vm_compute; reflexivity | split; [vm_compute; reflexivity | ]]);
    (split; [vm_compute; lia | ]);
    (split; [vm_compute; lia | ]);
    (split; [intros p; destruct p; vm_compute; reflexivity | ]);
    (split; [intros p; destruct p; vm_compute; reflexivity | ]);
    (split; [intros H71;
             first [exfalso; lia | vm_compute; repeat split; discriminate]
            | intros E; first [reflexivity | discriminate E]]).
Qed.

Lemma pin_is_true (p : led_pin) (o : option led_pin) :
  pin_is p o = true <-> o = Some p.
Proof.
  destruct o as [q | ]; simpl.
  - split.
    + destruct p, q; simpl; intros E; (reflexivity || discriminate E).
    + intros E. injection E as ->. destruct p; reflexivity.
  - split; discriminate.
Qed.

(** C6.  For every index 0..72 the two nibble switches produce port
    values in which at most one LED pin is an output at level 1 and at
    most one an output at level 0, and never the same pin: the pins are
    the ones named by the high and the low nibble of [pp[i]], which
    differ for the 72 component LEDs; for index 72 the entry is 0x00 and
    no LED pin is driven. *)
Theorem pin_pattern_legal (s : state) (i : Z) :
  reachable s -> 0 <= i <= 72 ->
  exists v s',
    rom pp i = Some v /\ drive_ports (set_intt i s) = Some s' /\
    (length (filter (driven_high s') led_pins) <= 1)%nat /\
    (length (filter (driven_low s') led_pins) <= 1)%nat /\
    (forall p, ~ (driven_high s' p = true /\ driven_low s' p = true)) /\
    (forall p, driven_high s' p = true <->
               pin_of_code (Z.shiftr v 4) = Some p) /\
    (forall p, driven_low s' p = true <->
               pin_of_code (Z.land v 0x0f) = Some p) /\
    (i <= 71 -> pin_of_code (Z.shiftr v 4) <> None /\
                pin_of_code (Z.land v 0x0f) <> None /\
                pin_of_code (Z.shiftr v 4) <> pin_of_code (Z.land v 0x0f)) /\
    (i = 72 -> v = 0 /\
               forall p, driven_high s' p = false /\ driven_low s' p = false).
Proof.
  intros Hr Hi. pose proof (inv_dbg s (reachable_Inv s Hr)) as Hdbg.
  destruct (drive_ports_pins s i Hdbg Hi)
    as (v & s' & Ev & Es & Hh & Hl & Hhi & Hlo & H71 & H72).
  exists v, s'.
  split; [exact Ev | split; [exact Es | split; [exact Hh | split; [exact Hl | ]]]].
  split; [ | split; [ | split; [ | split]]].
  - intros p [H1 H2]. unfold driven_high, driven_low in *.
    destruct (is_output s' p), (level s' p); discriminate.
  - intros p. rewrite Hhi. apply pin_is_true.
  - intros p. rewrite Hlo. apply pin_is_true.
  - intros Hle. destruct (H71 Hle) as (Hne & Hh' & Hl').
    split; [exact Hh' | split; [exact Hl' | ]].
    clear - Hne Hh' Hl' Ev Hi. revert Hne Hh' Hl' Ev.
    cases_of i 73%nat; intros Hne Hh' Hl' Ev; vm_compute in Ev;
      injection Ev as <-;
      first [vm_compute; discriminate | exfalso; apply Hne; reflexivity].
  - intros ->. pose proof (H72 eq_refl) as ->.
    split; [reflexivity | ]. intros p.
    rewrite Hhi, Hlo. split; reflexivity.
Qed.

Lemma pin_pattern_legal_witness :
  exists v s',
    rom pp 12 = Some v /\ drive_ports (set_intt 12 boot) = Some s' /\
    (length (filter (driven_high s') led_pins) <= 1)%nat /\
    (length (filter (driven_low s') led_pins) <= 1)%nat /\
    (forall p, ~ (driven_high s' p = true /\ driven_low s' p = true)) /\
    (forall p, driven_high s' p = true <->
               pin_of_code (Z.shiftr v 4) = Some p) /\
    (forall p, driven_low s' p = true <->
               pin_of_code (Z.land v 0x0f) = Some p) /\
    (12 <= 71 -> pin_of_code (Z.shiftr v 4) <> None /\
                 pin_of_code (Z.land v 0x0f) <> None /\
                 pin_of_code (Z.shiftr v 4) <> pin_of_code (Z.land v 0x0f)) /\
    (12 = 72 -> v = 0 /\
                forall p, driven_high s' p = false /\ driven_low s' p = false).
Proof.
  apply (pin_pattern_legal boot 12).
  - exact reach_boot.
  - lia.
Defined.

(** Index 12 (red of L12, table entry 0x98) drives A7 high and A0 low. *)
Example red_L12_drives_A7_A0 :
  exists s', drive_ports (set_intt 12 boot) = Some s' /\
    filter (driven_high s') led_pins = [A7] /\
    filter (driven_low s') led_pins = [A0].
Proof. eexists. split; [vm_compute; reflexivity | split; reflexivity]. Qed.

(** * Pattern engine *)

Lemma land_1f_u8 (r : Z) : 0 <= r -> u8 (Z.land r 0x1f) = Z.land r 0x1f.
Proof.
  intros Hr. unfold u8. apply Z.mod_small.
  assert (E : Z.land r 0x1f = r mod 2 ^ 5)
    by (apply (Z.land_ones r 5); lia).
  rewrite E. pose proof (Z.mod_pos_bound r (2 ^ 5) ltac:(lia)) as B.
  change (2 ^ 5) with 32 in *. lia.
Qed.

(** Effect of one interrupt on the random positions. *)
Lemma interrupt_random (s s' : state) :
  Inv s -> interrupt s = Some s' -> random_effect s s'.
Proof.
  intros HI. revert s'.
  by_phase s HI; intros s' E; injection E as <-;
    unfold random_effect; exec; cbv [draw_slot]; try reflexivity;
    match goal with
    | H : Z.land _ 24 = 24 |- _ => rewrite H
    | H : Z.land _ 24 <> 24 |- _ => apply Z.eqb_neq in H; rewrite H
    end;
    cbv [put3 el0 el1 el2]; rewrite ?land_1f_u8 by lia; reflexivity.
Qed.

(** C7.  For every 16-bit value of [randomnr]: in the six phases that
    refill a slot of [randomposns], a draw with
    [(randomnr & 0x18) = 0x18] leaves [randomposns] as it was, and any
    other draw stores [randomnr & 0x1f], which lies in 0..23, in that
    slot; in all other phases [randomposns] is unchanged. *)
Theorem rejected_draw_keeps_pending (s : state) :
  Inv s ->
  exists s', interrupt s = Some s' /\
    match draw_slot (LedComTimePhase s) with
    | Some i =>
        if Z.land (randomnr s) 0x18 =? 0x18
        then randomposns s' = randomposns s
        else randomposns s' =
               put3 (randomposns s) i (Z.land (randomnr s) 0x1f) /\
             0 <= Z.land (randomnr s) 0x1f <= 23
    | None => randomposns s' = randomposns s
    end /\
    all3 ring_range (randomposns s').
Proof.
  intros HI. destruct (interrupt_Inv s HI) as (s' & E & HI').
  exists s'. split; [exact E | split; [ | apply HI']].
  pose proof (interrupt_random s s' HI E) as R. unfold random_effect in R.
  destruct (draw_slot (LedComTimePhase s)); [ | exact R].
  destruct (Z.eqb_spec (Z.land (randomnr s) 24) 24) as [ | Hne]; [exact R | ].
  split; [exact R | ].
  apply accepted_draw_range; [apply HI | exact Hne].
Qed.

Lemma rejected_draw_keeps_pending_witness :
  exists s', interrupt (set_LedComTimePhase 10 (set_randomnr 0x5a5a boot))
               = Some s' /\
    match draw_slot
            (LedComTimePhase
               (set_LedComTimePhase 10 (set_randomnr 0x5a5a boot))) with
    | Some i =>
        if Z.land (randomnr (set_LedComTimePhase 10 (set_randomnr 0x5a5a boot)))
             0x18 =? 0x18
        then randomposns s' =
               randomposns (set_LedComTimePhase 10 (set_randomnr 0x5a5a boot))
        else randomposns s' =
               put3 (randomposns
                       (set_LedComTimePhase 10 (set_randomnr 0x5a5a boot))) i
                 (Z.land (randomnr
                            (set_LedComTimePhase 10 (set_randomnr 0x5a5a boot)))
                    0x1f) /\
             0 <= Z.land (randomnr
                            (set_LedComTimePhase 10 (set_randomnr 0x5a5a boot)))
                    0x1f <= 23
    | None => randomposns s' =
                randomposns (set_LedComTimePhase 10 (set_randomnr 0x5a5a boot))
    end /\
    all3 ring_range (randomposns s').
Proof.
  apply (rejected_draw_keeps_pending
           (set_LedComTimePhase 10 (set_randomnr 0x5a5a boot))).
  constructor; vm_compute; try tauto; repeat split; discriminate.
Defined.

(** A rejected draw (0x5a5a & 0x18 = 0x18) and an accepted one. *)
Example draw_rejected_then_accepted :
  draw i0 (set_randomposns (Arr3 7 0 0) (set_randomnr 0x5a5a boot))
    = set_randomposns (Arr3 7 0 0) (set_randomnr 0x5a5a boot) /\
  randomposns (draw i0 (set_randomposns (Arr3 7 0 0) (set_randomnr 0x5a35 boot)))
    = Arr3 21 0 0.
Proof. split; reflexivity. Qed.

(** Effect of one interrupt on the pixel positions. *)
Lemma interrupt_chase (s s' : state) :
  Inv s -> interrupt s = Some s' -> chase_effect s s'.
Proof.
  intros HI. revert s'.
  by_phase s HI; intros s' E; injection E as <-;
    unfold chase_effect; exec;
    repeat match goal with
    | H : ?a = 0 |- context [?a =? 0] =>
        rewrite (proj2 (Z.eqb_eq a 0) H)
    | H : ?a <> 0 |- context [?a =? 0] =>
        rewrite (proj2 (Z.eqb_neq a 0) H)
    end;
    reflexivity.
Qed.

(** Effect of one interrupt on the colours. *)
Lemma interrupt_color (s s' : state) :
  Inv s -> interrupt s = Some s' -> color_effect s s'.
Proof.
  intros HI. revert s'.
  by_phase s HI; intros s' E; injection E as <-;
    unfold color_effect; exec;
    repeat match goal with
    | H : ?a = 0 |- context [?a =? 0] =>
        rewrite (proj2 (Z.eqb_eq a 0) H)
    | H : ?a <> 0 |- context [?a =? 0] =>
        rewrite (proj2 (Z.eqb_neq a 0) H)
    | H : ?a < ?b |- context [?a <? ?b] =>
        rewrite (proj2 (Z.ltb_lt a b) H)
    | H : ?b <= ?a |- context [?a <? ?b] =>
        rewrite (proj2 (Z.ltb_ge a b) H)
    end;
    repeat split; try reflexivity; try arith;
    eexists; (split; [eassumption | reflexivity]).
Qed.

Lemma chase_returns (p : Z) :
  ring_range p ->
  Nat.iter 24 chase_up p = p /\ Nat.iter 24 chase_down p = p.
Proof.
  unfold ring_range. intros H. cases_of p 24%nat; split; reflexivity.
Qed.

(** C8.  In mode 1, when the chase counter of a pixel has expired, the
    position of pixel 0 (phase 1) and of pixel 2 (phase 7) becomes
    [(p + 1) mod 24] and the position of pixel 1 (phase 4) becomes
    [(p - 1) mod 24]; positions stay in 0..23, and 24 updates in a row
    bring a position back to where it started. *)
Theorem chaser_wraps_at_24 (s : state) :
  Inv s -> mode s = 1 ->
  exists s', interrupt s = Some s' /\
    (LedComTimePhase s = 1 -> get3 (LedChaseCount s) i0 = 0 ->
       LedPos s' = put3 (LedPos s) i0 ((get3 (LedPos s) i0 + 1) mod 24)) /\
    (LedComTimePhase s = 4 -> get3 (LedChaseCount s) i1 = 0 ->
       LedPos s' = put3 (LedPos s) i1 ((get3 (LedPos s) i1 - 1) mod 24)) /\
    (LedComTimePhase s = 7 -> get3 (LedChaseCount s) i2 = 0 ->
       LedPos s' = put3 (LedPos s) i2 ((get3 (LedPos s) i2 + 1) mod 24)) /\
    all3 ring_range (LedPos s') /\
    forall p, ring_range p ->
      chase_up p = (p + 1) mod 24 /\ chase_down p = (p - 1) mod 24 /\
      ring_range (chase_up p) /\ ring_range (chase_down p) /\
      Nat.iter 24 chase_up p = p /\ Nat.iter 24 chase_down p = p.
Proof.
  intros HI Hm. destruct (interrupt_Inv s HI) as (s' & E & HI').
  exists s'. split; [exact E | ].
  pose proof (interrupt_chase s s' HI E) as C. unfold chase_effect in C.
  destruct (inv_pos s HI) as (H0 & H1 & H2).
  split; [ | split; [ | split; [ | split]]].
  - intros Hp Hk. rewrite Hp, Hk, Hm in C.
    change (0 =? 0) with true in C. change (1 =? 0) with false in C.
    cbv iota in C. rewrite C.
    destruct (chase_up_spec (get3 (LedPos s) i0) H0) as (-> & _). reflexivity.
  - intros Hp Hk. rewrite Hp, Hk, Hm in C.
    change (0 =? 0) with true in C. change (1 =? 0) with false in C.
    cbv iota in C. rewrite C.
    destruct (chase_down_spec (get3 (LedPos s) i1) H1) as (-> & _). reflexivity.
  - intros Hp Hk. rewrite Hp, Hk, Hm in C.
    change (0 =? 0) with true in C. change (1 =? 0) with false in C.
    cbv iota in C. rewrite C.
    destruct (chase_up_spec (get3 (LedPos s) i2) H2) as (-> & _). reflexivity.
  - apply HI'.
  - intros p Hp.
    destruct (chase_up_spec p Hp) as (? & ?).
    destruct (chase_down_spec p Hp) as (? & ?).
    destruct (chase_returns p Hp) as (? & ?). auto 10.
Qed.

Lemma chaser_wraps_at_24_witness :
  exists s', interrupt (set_LedChaseCount (Arr3 0 0 0)
                          (set_LedComTimePhase 4 (ir_detected boot)))
               = Some s' /\
    (LedComTimePhase (set_LedChaseCount (Arr3 0 0 0)
                        (set_LedComTimePhase 4 (ir_detected boot))) = 1 ->
     get3 (LedChaseCount (set_LedChaseCount (Arr3 0 0 0)
                            (set_LedComTimePhase 4 (ir_detected boot)))) i0 = 0 ->
       LedPos s' =
         put3 (LedPos (set_LedChaseCount (Arr3 0 0 0)
                         (set_LedComTimePhase 4 (ir_detected boot)))) i0
           ((get3 (LedPos (set_LedChaseCount (Arr3 0 0 0)
                             (set_LedComTimePhase 4 (ir_detected boot)))) i0
             + 1) mod 24)) /\
    (LedComTimePhase (set_LedChaseCount (Arr3 0 0 0)
                        (set_LedComTimePhase 4 (ir_detected boot))) = 4 ->
     get3 (LedChaseCount (set_LedChaseCount (Arr3 0 0 0)
                            (set_LedComTimePhase 4 (ir_detected boot)))) i1 = 0 ->
       LedPos s' =
         put3 (LedPos (set_LedChaseCount (Arr3 0 0 0)
                         (set_LedComTimePhase 4 (ir_detected boot)))) i1
           ((get3 (LedPos (set_LedChaseCount (Arr3 0 0 0)
                             (set_LedComTimePhase 4 (ir_detected boot)))) i1
             - 1) mod 24)) /\
    (LedComTimePhase (set_LedChaseCount (Arr3 0 0 0)
                        (set_LedComTimePhase 4 (ir_detected boot))) = 7 ->
     get3 (LedChaseCount (set_LedChaseCount (Arr3 0 0 0)
                            (set_LedComTimePhase 4 (ir_detected boot)))) i2 = 0 ->
       LedPos s' =
         put3 (LedPos (set_LedChaseCount (Arr3 0 0 0)
                         (set_LedComTimePhase 4 (ir_detected boot)))) i2
           ((get3 (LedPos (set_LedChaseCount (Arr3 0 0 0)
                             (set_LedComTimePhase 4 (ir_detected boot)))) i2
             + 1) mod 24)) /\
    all3 ring_range (LedPos s') /\
    forall p, ring_range p ->
      chase_up p = (p + 1) mod 24 /\ chase_down p = (p - 1) mod 24 /\
      ring_range (chase_up p) /\ ring_range (chase_down p) /\
      Nat.iter 24 chase_up p = p /\ Nat.iter 24 chase_down p = p.
Proof.
  apply (chaser_wraps_at_24
           (set_LedChaseCount (Arr3 0 0 0)
              (set_LedComTimePhase 4 (ir_detected boot)))).
  - constructor; vm_compute; try tauto; repeat split; discriminate.
  - reflexivity.
Defined.

(** C9.  For every [colorcount] in 0..11: phase 22 steps [colorcount] to
    [(colorcount + 1) mod 12] when the colour counter has expired (11
    wraps to 0) and leaves it alone otherwise; the colour phases 23, 24
    and 25 then load [LedCol[0] = colors[colorcount]],
    [LedCol[1] = colors[(colorcount + 4) mod 12]] and
    [LedCol[2] = colors[(colorcount + 8) mod 12]]. *)
Theorem colors_follow_colorcount (s : state) :
  Inv s ->
  (LedComTimePhase s = 22 ->
     exists s', interrupt s = Some s' /\
       (LedColorCount s = 0 -> colorcount s' = (colorcount s + 1) mod 12) /\
       (LedColorCount s <> 0 -> colorcount s' = colorcount s) /\
       0 <= colorcount s' <= 11) /\
  (LedComTimePhase s = 23 ->
     exists s', ticks 3 s = Some s' /\
       colorcount s' = colorcount s /\
       rom colors (colorcount s) = Some (get3 (LedCol s') i0) /\
       rom colors ((colorcount s + 4) mod 12) = Some (get3 (LedCol s') i1) /\
       rom colors ((colorcount s + 8) mod 12) = Some (get3 (LedCol s') i2)).
Proof.
  intros HI. pose proof (inv_cc s HI) as Hcc. split.
  - intros Hp. destruct (interrupt_Inv s HI) as (s' & E & HI').
    exists s'. split; [exact E | ].
    pose proof (interrupt_color s s' HI E) as C. unfold color_effect in C.
    rewrite Hp in C. cbv iota beta in C. destruct C as (_ & C). rewrite C.
    split; [ | split].
    + intros ->. change (0 =? 0) with true. cbv iota.
      destruct (10 <? colorcount s) eqn:B; bools.
      * replace (colorcount s) with 11 by lia. reflexivity.
      * rewrite Z.mod_small; lia.
    + intros Hne. apply Z.eqb_neq in Hne. rewrite Hne. reflexivity.
    + destruct (LedColorCount s =? 0); [ | exact Hcc].
      destruct (10 <? colorcount s) eqn:B; bools; lia.
  - intros Hp.
    destruct (interrupt_Inv s HI) as (s1 & E1 & HI1).
    destruct (interrupt_Inv s1 HI1) as (s2 & E2 & HI2).
    destruct (interrupt_Inv s2 HI2) as (s3 & E3 & HI3).
    exists s3. split.
    { rewrite ticks_S, E1. cbv beta iota. rewrite ticks_S, E2. cbv beta iota.
      rewrite ticks_S, E3. reflexivity. }
    destruct (interrupt_timebase s s1 HI E1) as (_ & P1 & _).
    destruct (interrupt_timebase s1 s2 HI1 E2) as (_ & P2 & _).
    rewrite Hp in P1. change ((23 + 1) mod 27) with 24 in P1.
    rewrite P1 in P2. change ((24 + 1) mod 27) with 25 in P2.
    pose proof (interrupt_color s s1 HI E1) as C1.
    pose proof (interrupt_color s1 s2 HI1 E2) as C2.
    pose proof (interrupt_color s2 s3 HI2 E3) as C3.
    unfold color_effect in C1, C2, C3. rewrite Hp in C1.
    rewrite P1 in C2. rewrite P2 in C3. cbv iota beta in C1, C2, C3.
    destruct C1 as (K1 & v1 & R1 & L1).
    destruct C2 as (K2 & v2 & R2 & L2).
    destruct C3 as (K3 & v3 & R3 & L3).
    rewrite K2, K1 in K3. rewrite K1 in R2. rewrite K2, K1 in R3.
    rewrite L3, L2, L1. cbn [get3 put3 el0 el1 el2].
    split; [exact K3 | split; [exact R1 | split]].
    + rewrite <- R2. f_equal.
      destruct (colorcount s <? 8) eqn:B; bools.
      * rewrite Z.mod_small; lia.
      * replace (colorcount s + 4) with (colorcount s - 8 + 1 * 12) by lia.
        rewrite Z.mod_add, Z.mod_small; lia.
    + rewrite <- R3. f_equal.
      destruct (colorcount s <? 4) eqn:B; bools.
      * rewrite Z.mod_small; lia.
      * replace (colorcount s + 8) with (colorcount s - 4 + 1 * 12) by lia.
        rewrite Z.mod_add, Z.mod_small; lia.
Qed.

Lemma colors_follow_colorcount_witness :
  (LedComTimePhase (set_LedComTimePhase 23 (set_colorcount 9 boot)) = 22 ->
     exists s', interrupt (set_LedComTimePhase 23 (set_colorcount 9 boot))
                  = Some s' /\
       (LedColorCount (set_LedComTimePhase 23 (set_colorcount 9 boot)) = 0 ->
          colorcount s' =
            (colorcount (set_LedComTimePhase 23 (set_colorcount 9 boot)) + 1)
              mod 12) /\
       (LedColorCount (set_LedComTimePhase 23 (set_colorcount 9 boot)) <> 0 ->
          colorcount s' =
            colorcount (set_LedComTimePhase 23 (set_colorcount 9 boot))) /\
       0 <= colorcount s' <= 11) /\
  (LedComTimePhase (set_LedComTimePhase 23 (set_colorcount 9 boot)) = 23 ->
     exists s', ticks 3 (set_LedComTimePhase 23 (set_colorcount 9 boot))
                  = Some s' /\
       colorcount s' =
         colorcount (set_LedComTimePhase 23 (set_colorcount 9 boot)) /\
       rom colors (colorcount (set_LedComTimePhase 23 (set_colorcount 9 boot)))
         = Some (get3 (LedCol s') i0) /\
       rom colors
         ((colorcount (set_LedComTimePhase 23 (set_colorcount 9 boot)) + 4)
            mod 12)
         = Some (get3 (LedCol s') i1) /\
       rom colors
         ((colorcount (set_LedComTimePhase 23 (set_colorcount 9 boot)) + 8)
            mod 12)
         = Some (get3 (LedCol s') i2)).
Proof.
  apply (colors_follow_colorcount
           (set_LedComTimePhase 23 (set_colorcount 9 boot))).
  constructor; vm_compute; try tauto; repeat split; discriminate.
Defined.

(** With [colorcount = 9] the three colours are entries 9, 1 and 5 of the
    table. *)
Example colors_at_9 :
  exists s', ticks 3 (set_LedComTimePhase 23 (set_colorcount 9 boot)) = Some s' /\
    LedCol s' = Arr3 0x31 0x07 0x1c.
Proof. eexists. split; [vm_compute; reflexivity | reflexivity]. Qed.

(** * Table reads stay in bounds *)

(** C10.  In every state that the program can reach, the timer interrupt
    completes without reading outside [pp] or [colors]: the component
    index [intt] it selects lies in 0..72, every entry of [LedPos] and of
    [randomposns] lies in 0..23 before and after it, and [colorcount]
    lies in 0..11, so that the indices used for [colors] do too. *)
Theorem table_reads_in_bounds (s : state) :
  reachable s ->
  exists s', interrupt s = Some s' /\ reachable s' /\
    intt s' = select_component (LedComTimePhase s) (LedPos s) (LedCol s) /\
    0 <= intt s' <= 72 /\
    (exists v, rom pp (intt s') = Some v) /\
    all3 ring_range (LedPos s) /\ all3 ring_range (LedPos s') /\
    all3 ring_range (randomposns s) /\ all3 ring_range (randomposns s') /\
    0 <= colorcount s <= 11 /\ 0 <= colorcount s' <= 11 /\
    0 <= (if colorcount s <? 8 then colorcount s + 4 else colorcount s - 8)
      <= 11 /\
    0 <= (if colorcount s <? 4 then colorcount s + 8 else colorcount s - 4)
      <= 11.
Proof.
  intros Hr. pose proof (reachable_Inv s Hr) as HI.
  destruct (interrupt_Inv s HI) as (s' & E & HI').
  destruct (interrupt_timebase s s' HI E) as (T & _).
  assert (Ht : 0 <= intt s' <= 72).
  { rewrite T.
    destruct (select_component_range (LedComTimePhase s) (LedPos s) (LedCol s)
                (inv_phase s HI) (inv_pos s HI)); lia. }
  exists s'. split; [exact E | ].
  split; [apply (reach_step s s' Hr), step_tick, E | ].
  split; [exact T | split; [exact Ht | ]].
  split; [destruct (rom_pp_total (intt s') Ht) as (v & Ev & _); eauto | ].
  pose proof (inv_cc s HI) as Hcc.
  split; [apply HI | split; [apply HI' | ]].
  split; [apply HI | split; [apply HI' | ]].
  split; [exact Hcc | split; [apply HI' | ]].
  split.
  - destruct (colorcount s <? 8) eqn:B; bools; lia.
  - destruct (colorcount s <? 4) eqn:B; bools; lia.
Qed.

Lemma table_reads_in_bounds_witness :
  exists s', interrupt boot = Some s' /\ reachable s' /\
    intt s' = select_component (LedComTimePhase boot) (LedPos boot)
                (LedCol boot) /\
    0 <= intt s' <= 72 /\
    (exists v, rom pp (intt s') = Some v) /\
    all3 ring_range (LedPos boot) /\ all3 ring_range (LedPos s') /\
    all3 ring_range (randomposns boot) /\ all3 ring_range (randomposns s') /\
    0 <= colorcount boot <= 11 /\ 0 <= colorcount s' <= 11 /\
    0 <= (if colorcount boot <? 8 then colorcount boot + 4
          else colorcount boot - 8) <= 11 /\
    0 <= (if colorcount boot <? 4 then colorcount boot + 8
          else colorcount boot - 4) <= 11.
Proof.
  apply (table_reads_in_bounds boot). exact reach_boot.
Defined.

(** * The random generator *)

Lemma holds_from_spec (n : nat) (f : Z -> bool) :
  forall z, holds_from n f z = true ->
  forall k, z <= k < z + Z.of_nat n -> f k = true.
Proof.
  induction n as [ | n IH]; intros z H k Hk; [lia | ].
  cbn [holds_from] in H. apply andb_true_iff in H. destruct H as (Hz & Hn).
  destruct (Z.eq_dec k z) as [-> | Hne]; [exact Hz | ].
  apply (IH (z + 1) Hn). lia.
Qed.

Lemma period_value : Z.of_nat period = 65535.
Proof. reflexivity. Qed.

(** [makerandom] never produces 0 and stays within 16 bits; a zero state
    is treated as the state 1. *)
Theorem makerandom_never_zero (r : Z) :
  0 <= r <= 65535 ->
  1 <= makerandom r <= 65535 /\ makerandom 0 = makerandom 1.
Proof.
  intros Hr. split; [ | reflexivity].
  assert (F : holds_from (S period)
                (fun z => (1 <=? makerandom z) && (makerandom z <=? 65535)) 0
              = true)
    by (vm_compute; reflexivity).
  pose proof (holds_from_spec _ _ 0 F r) as H. cbv beta in H.
  pose proof period_value as Hp.
  rewrite Nat2Z.inj_succ in H. specialize (H ltac:(lia)).
  apply andb_true_iff in H. destruct H as (H1 & H2).
  apply Z.leb_le in H1, H2. lia.
Qed.

Lemma makerandom_never_zero_witness :
  1 <= makerandom 0x8000 <= 65535 /\ makerandom 0 = makerandom 1.
Proof. apply (makerandom_never_zero 0x8000). lia. Defined.

Lemma avoids_one_spec (n : nat) :
  forall x, avoids_one n x = true ->
  forall k, (k < n)%nat -> Nat.iter k makerandom x <> 1.
Proof.
  induction n as [ | n IH]; intros x H k Hk; [lia | ].
  cbn [avoids_one] in H. apply andb_true_iff in H. destruct H as (Hx & Hn).
  apply negb_true_iff, Z.eqb_neq in Hx.
  destruct k as [ | k]; [exact Hx | ].
  rewrite Nat.iter_succ_r. apply (IH _ Hn). lia.
Qed.

Lemma random_after_add (i j : nat) :
  random_after (i + j) = Nat.iter i makerandom (random_after j).
Proof. unfold random_after. apply Nat.iter_add. Qed.

Lemma random_after_period : random_after period = 1.
Proof. vm_compute. reflexivity. Qed.

Lemma random_after_no_early_return (k : nat) :
  (0 < k < period)%nat -> random_after k <> 1.
Proof.
  intros Hk. unfold random_after.
  destruct k as [ | k]; [lia | ]. rewrite Nat.iter_succ_r.
  apply (avoids_one_spec (pred period)); [vm_compute; reflexivity | lia].
Qed.

Lemma random_after_distinct (i j : nat) :
  (i < j < period)%nat -> random_after i <> random_after j.
Proof.
  intros Hij E.
  apply (random_after_no_early_return (period - j + i)); [lia | ].
  rewrite random_after_add, E, <- random_after_add.
  replace (period - j + j)%nat with period by lia.
  apply random_after_period.
Qed.

Lemma random_after_range (k : nat) : 1 <= random_after k <= 65535.
Proof.
  induction k as [ | k IH]; [unfold random_after; simpl; lia | ].
  change (random_after (S k)) with (makerandom (random_after k)).
  apply makerandom_never_zero. lia.
Qed.

(** Started from 1, [randomnr] runs through all 65535 non-zero 16-bit
    values before it returns to 1: it comes back to 1 after 65535 calls of
    [makerandom] and not earlier, the values in between are pairwise
    different, and every non-zero 16-bit value is among them. *)
Theorem makerandom_full_period :
  Z.of_nat period = 65535 /\
  random_after period = 1 /\
  (forall k, (0 < k < period)%nat -> random_after k <> 1) /\
  (forall i j, (i < j < period)%nat -> random_after i <> random_after j) /\
  (forall v, 1 <= v <= 65535 ->
     exists k, (k < period)%nat /\ random_after k = v).
Proof.
  split; [reflexivity | ].
  split; [exact random_after_period | ].
  split; [exact random_after_no_early_return | ].
  split; [exact random_after_distinct | ].
  intros v Hv. pose proof period_value as Hp.
  assert (Hnd : NoDup (map random_after (seq 0 period))).
  { apply NoDup_map_NoDup_ForallPairs; [ | apply seq_NoDup].
    intros i j Hi Hj E. apply in_seq in Hi, Hj.
    destruct (Nat.lt_trichotomy i j) as [L | [L | L]]; [ | exact L | ].
    - exfalso. apply (random_after_distinct i j); [lia | exact E].
    - exfalso. apply (random_after_distinct j i); [lia | symmetry; exact E]. }
  assert (Hincl : incl (map random_after (seq 0 period)) nonzero_words).
  { intros x Hx. apply in_map_iff in Hx. destruct Hx as (k & <- & _).
    pose proof (random_after_range k) as R. unfold nonzero_words.
    replace (random_after k) with (Z.of_nat (Z.to_nat (random_after k))) by lia.
    apply in_map, in_seq. lia. }
  assert (Hall : incl nonzero_words (map random_after (seq 0 period))).
  { apply NoDup_length_incl; [exact Hnd | | exact Hincl].
    unfold nonzero_words. rewrite !length_map, !length_seq. lia. }
  assert (Hin : In v nonzero_words).
  { unfold nonzero_words. replace v with (Z.of_nat (Z.to_nat v)) by lia.
    apply in_map, in_seq. lia. }
  apply Hall, in_map_iff in Hin. destruct Hin as (k & E & Hk).
  apply in_seq in Hk. exists k. split; [lia | exact E].
Qed.

(** * Wiring of the LED matrix *)

Lemma led_pin_eqb_eq (p q : led_pin) : led_pin_eqb p q = true <-> p = q.
Proof.
  split.
  - destruct p, q; simpl; intros E; (reflexivity || discriminate E).
  - intros ->. destruct q; reflexivity.
Qed.

(** The table [pp] agrees with the wiring table of the header comment:
    entry [i] encodes the pin pair listed there for red (0..23), green
    (24..47) or blue (48..71) of LED [i mod 24]. *)
Theorem pp_matches_wiring_table (i : Z) :
  0 <= i <= 71 ->
  exists h l, pin_pair i = Some (h, l) /\ wired i = Some (h, l) /\ h <> l.
Proof.
  intros Hi. cases_of i 72%nat; eexists; eexists;
    (split; [reflexivity | split; [reflexivity | discriminate]]).
Qed.

Lemma pp_matches_wiring_table_witness :
  exists h l, pin_pair 35 = Some (h, l) /\ wired 35 = Some (h, l) /\ h <> l.
Proof. apply (pp_matches_wiring_table 35). lia. Defined.

Lemma led_index_sound (h l : led_pin) (i : Z) :
  led_index h l = Some i -> 0 <= i <= 71 /\ pin_pair i = Some (h, l).
Proof.
  unfold led_index. intros E. apply find_some in E. destruct E as (Hin & Hp).
  split.
  - apply in_map_iff in Hin. destruct Hin as (k & <- & Hk).
    apply in_seq in Hk. lia.
  - destruct (pin_pair i) as [[h' l'] | ]; [ | discriminate Hp].
    apply andb_true_iff in Hp. destruct Hp as (Eh & El).
    apply led_pin_eqb_eq in Eh, El. subst. reflexivity.
Qed.

Lemma pin_pair_injective (i j : Z) :
  0 <= i <= 71 -> 0 <= j <= 72 ->
  pin_pair i = pin_pair j -> i = j.
Proof.
  intros Hi Hj.
  assert (F : holds_from 72
                (fun a => holds_from 73
                   (fun b => match pin_pair a, pin_pair b with
                             | Some (h, l), Some (h', l') =>
                                 negb (led_pin_eqb h h' && led_pin_eqb l l')
                                 || (a =? b)
                             | Some _, None => true
                             | None, _ => false
                             end) 0) 0 = true)
    by (vm_compute; reflexivity).
  pose proof (holds_from_spec _ _ 0 F i ltac:(simpl; lia)) as Fi.
  cbv beta in Fi.
  pose proof (holds_from_spec _ _ 0 Fi j ltac:(simpl; lia)) as Fij.
  cbv beta in Fij. intros E. rewrite <- E in Fij.
  destruct (pin_pair i) as [[h l] | ]; [ | discriminate Fij].
  assert (Hh : led_pin_eqb h h = true) by (apply led_pin_eqb_eq; reflexivity).
  assert (Hl : led_pin_eqb l l = true) by (apply led_pin_eqb_eq; reflexivity).
  rewrite Hh, Hl in Fij. apply Z.eqb_eq. exact Fij.
Qed.

(** The 72 entries of [pp] are the 72 ordered pairs of different LED pins,
    each exactly once: for any two different pins there is one and only
    one index whose entry drives the first high and the second low, and
    that is what [drive_ports] does at that index. *)
Theorem every_pin_pair_has_one_led (s : state) (h l : led_pin) :
  reachable s -> h <> l ->
  exists i, 0 <= i <= 71 /\ pin_pair i = Some (h, l) /\
    (forall j, 0 <= j <= 72 -> pin_pair j = Some (h, l) -> j = i) /\
    exists s', drive_ports (set_intt i s) = Some s' /\
      filter (driven_high s') led_pins = [h] /\
      filter (driven_low s') led_pins = [l].
Proof.
  intros Hr Hne.
  assert (E : exists i, led_index h l = Some i).
  { destruct h, l; try (exfalso; apply Hne; reflexivity);
      eexists; vm_compute; reflexivity. }
  destruct E as (i & E). destruct (led_index_sound h l i E) as (Hi & Hp).
  exists i. split; [exact Hi | split; [exact Hp | split]].
  - intros j Hj Ej. symmetry. apply pin_pair_injective; try assumption.
    congruence.
  - pose proof (inv_dbg s (reachable_Inv s Hr)) as Hdbg.
    destruct (drive_ports_pins s i Hdbg ltac:(lia))
      as (v & s' & Ev & Es & _ & _ & Hhi & Hlo & _).
    exists s'. split; [exact Es | ].
    unfold pin_pair in Hp. rewrite Ev in Hp.
    destruct (pin_of_code (Z.shiftr v 4)) as [h' | ]; [ | discriminate Hp].
    destruct (pin_of_code (Z.land v 15)) as [l' | ]; [ | discriminate Hp].
    injection Hp as -> ->.
    unfold led_pins. cbn [filter]. rewrite !Hhi, !Hlo. cbn [pin_is].
    split; [destruct h; reflexivity | destruct l; reflexivity].
Qed.

Lemma every_pin_pair_has_one_led_witness :
  exists i, 0 <= i <= 71 /\ pin_pair i = Some (A7, B7) /\
    (forall j, 0 <= j <= 72 -> pin_pair j = Some (A7, B7) -> j = i) /\
    exists s', drive_ports (set_intt i boot) = Some s' /\
      filter (driven_high s') led_pins = [A7] /\
      filter (driven_low s') led_pins = [B7].
Proof.
  apply (every_pin_pair_has_one_led boot A7 B7).
  - exact reach_boot.
  - discriminate.
Defined.

(** * Brightness by duty cycle *)




(** * Pins that do not drive LEDs *)









(** * Timing of the patterns *)

Lemma interrupt_counters (s s' : state) :
  Inv s -> interrupt s = Some s' ->
  counters s' = counters_step (LedComTimePhase s) (counters s).
Proof.
  intros HI. revert s'.
  by_phase s HI; intros s' E; injection E as <-;
    cbv [counters counters_step ch0 ch1 ch2 cnt cidx]; exec;
    repeat match goal with
    | H : ?a = 0 |- context [?a =? 0] =>
        rewrite (proj2 (Z.eqb_eq a 0) H)
    | H : ?a <> 0 |- context [?a =? 0] =>
        rewrite (proj2 (Z.eqb_neq a 0) H)
    | H : ?a < ?b |- context [?a <? ?b] =>
        rewrite (proj2 (Z.ltb_lt a b) H)
    | H : ?b <= ?a |- context [?a <? ?b] =>
        rewrite (proj2 (Z.ltb_ge a b) H)
    end;
    reflexivity.
Qed.

Lemma ticks_counters (n : nat) :
  forall s s', Inv s -> ticks n s = Some s' ->
  counters s' = run_counters n (LedComTimePhase s) (counters s).
Proof.
  induction n as [ | n IH]; intros s s' HI E.
  - injection E as <-. reflexivity.
  - rewrite ticks_S in E. destruct (interrupt_Inv s HI) as (s1 & E1 & HI1).
    rewrite E1 in E.
    destruct (interrupt_timebase s s1 HI E1) as (_ & P1 & _).
    rewrite (IH s1 s' HI1 E), P1, (interrupt_counters s s1 HI E1).
    reflexivity.
Qed.

Lemma run_counters_tock (c : ctr) :
  run_counters 27 0 c =
    Ctr (next_count chaserpositiontargetcount0 (ch0 c))
        (next_count chaserpositiontargetcount1 (ch1 c))
        (next_count chaserpositiontargetcount2 (ch2 c))
        (next_count chasercolortargetcount (cnt c))
        (if u8 (cnt c - 1) =? 0
         then (if 10 <? cidx c then 0 else u8 (cidx c + 1))
         else cidx c).
Proof. destruct c. reflexivity. Qed.

Lemma tock_counters (s : state) :
  Inv s -> LedComTimePhase s = 0 ->
  exists s', ticks 27 s = Some s' /\ Inv s' /\ LedComTimePhase s' = 0 /\
    LedChaseCount s' =
      Arr3 (next_count 113 (get3 (LedChaseCount s) i0))
           (next_count 11 (get3 (LedChaseCount s) i1))
           (next_count 9 (get3 (LedChaseCount s) i2)) /\
    LedColorCount s' = next_count 253 (LedColorCount s) /\
    colorcount s' =
      (if LedColorCount s =? 1 then (colorcount s + 1) mod 12
       else colorcount s).
Proof.
  intros HI Hp. destruct (ticks_Inv 27 s HI) as (s' & E & HI').
  exists s'. split; [exact E | split; [exact HI' | ]].
  destruct (ticks_closed 27 s s' HI E) as (_ & P & _).
  rewrite Hp in P. split; [exact P | ].
  pose proof (ticks_counters 27 s s' HI E) as C.
  rewrite Hp, run_counters_tock in C. unfold counters in C.
  injection C as C0 C1 C2 Cn Cc.
  cbn [ch0 ch1 ch2 cnt cidx] in *.
  split; [ | split; [exact Cn | ]].
  - destruct (LedChaseCount s') as [a b c]. cbn [get3 el0 el1 el2] in *.
    subst. reflexivity.
  - rewrite Cc. pose proof (inv_colcnt s HI) as R. pose proof (inv_cc s HI) as Rc.
    unfold byte_range in R.
    destruct (LedColorCount s =? 1) eqn:B1; bools.
    + rewrite B1. change (u8 (1 - 1) =? 0) with true. cbv iota.
      destruct (10 <? colorcount s) eqn:B; bools.
      * replace (colorcount s) with 11 by lia. reflexivity.
      * unfold u8. rewrite !Z.mod_small by lia. reflexivity.
    + assert (Hn : u8 (LedColorCount s - 1) <> 0) by arith.
      apply Z.eqb_neq in Hn. rewrite Hn. reflexivity.
Qed.

(** Over one tock (27 interrupts from phase 0) each chase counter and the
    colour counter is decremented modulo 256 and, when that gives 0,
    reloaded with its target (113, 11, 9 and 253), and [colorcount] steps
    to [(colorcount + 1) mod 12] exactly when the colour counter is
    reloaded.  A counter that is 1 is reloaded; a counter that is 0 wraps
    to 255. *)
Theorem counters_after_tock (s : state) :
  Inv s -> LedComTimePhase s = 0 ->
  exists s', ticks 27 s = Some s' /\ LedComTimePhase s' = 0 /\
    LedChaseCount s' =
      Arr3 (next_count 113 (get3 (LedChaseCount s) i0))
           (next_count 11 (get3 (LedChaseCount s) i1))
           (next_count 9 (get3 (LedChaseCount s) i2)) /\
    LedColorCount s' = next_count 253 (LedColorCount s) /\
    colorcount s' =
      (if LedColorCount s =? 1 then (colorcount s + 1) mod 12
       else colorcount s) /\
    (forall t, next_count t 1 = t /\ next_count t 0 = 255) /\
    (forall t c, 2 <= c <= 255 -> next_count t c = c - 1).
Proof.
  intros HI Hp.
  destruct (tock_counters s HI Hp) as (s' & E & _ & P & Hc & Hn & Hi).
  exists s'. repeat (split; [assumption | ]). split.
  - intros t. split; reflexivity.
  - intros t c Hc'. unfold next_count.
    assert (Hu : u8 (c - 1) = c - 1) by arith. rewrite Hu.
    destruct (c - 1 =? 0) eqn:B; bools; [lia | reflexivity].
Qed.

Lemma counters_after_tock_witness :
  exists s', ticks 27 boot = Some s' /\ LedComTimePhase s' = 0 /\
    LedChaseCount s' =
      Arr3 (next_count 113 (get3 (LedChaseCount boot) i0))
           (next_count 11 (get3 (LedChaseCount boot) i1))
           (next_count 9 (get3 (LedChaseCount boot) i2)) /\
    LedColorCount s' = next_count 253 (LedColorCount boot) /\
    colorcount s' =
      (if LedColorCount boot =? 1 then (colorcount boot + 1) mod 12
       else colorcount boot) /\
    (forall t, next_count t 1 = t /\ next_count t 0 = 255) /\
    (forall t c, 2 <= c <= 255 -> next_count t c = c - 1).
Proof.
  apply (counters_after_tock boot); [exact boot_Inv | reflexivity].
Defined.


Lemma next_count_cycle (t k : Z) :
  1 <= t <= 255 -> 0 <= k ->
  next_count t (t - k mod t) = t - (k + 1) mod t.
Proof.
  intros Ht Hk. unfold next_count.
  pose proof (Z.mod_pos_bound k t ltac:(lia)) as Hm.
  assert (Hu : u8 (t - k mod t - 1) = t - k mod t - 1).
  { unfold u8. apply Z.mod_small. lia. }
  rewrite Hu.
  destruct (t - k mod t - 1 =? 0) eqn:B; bools.
  - assert (E : (k + 1) mod t = 0).
    { rewrite <- Z.add_mod_idemp_l by lia.
      replace (k mod t + 1) with t by lia. apply Z.mod_same. lia. }
    lia.
  - assert (E : (k + 1) mod t = k mod t + 1).
    { rewrite <- Z.add_mod_idemp_l by lia. apply Z.mod_small. lia. }
    lia.
Qed.

Lemma colorcount_cycle (k : Z) :
  0 <= k ->
  (if 253 - k mod 253 =? 1 then ((k / 253) mod 12 + 1) mod 12
   else (k / 253) mod 12)
  = ((k + 1) / 253) mod 12.
Proof.
  intros Hk. pose proof (Z.mod_pos_bound k 253 ltac:(lia)) as Hm.
  pose proof (Z.div_mod k 253 ltac:(lia)) as Hd.
  destruct (253 - k mod 253 =? 1) eqn:B; bools.
  - assert (E : (k + 1) / 253 = k / 253 + 1).
    { replace (k + 1) with (0 + (k / 253 + 1) * 253) by lia.
      rewrite Z.div_add by lia. reflexivity. }
    rewrite E, Z.add_mod_idemp_l by lia. reflexivity.
  - assert (E : (k + 1) / 253 = k / 253).
    { replace (k + 1) with ((k mod 253 + 1) + (k / 253) * 253) by lia.
      rewrite Z.div_add, Z.div_small by lia. lia. }
    rewrite E. reflexivity.
Qed.

(** From power-on, after [k] tocks the chase counters are
    [113 - k mod 113], [11 - k mod 11] and [9 - k mod 9], the colour
    counter is [253 - k mod 253] and [colorcount] is [(k / 253) mod 12]:
    the three pixels move every 113th, 11th and 9th tock, the colour
    index steps every 253rd tock and the colour sequence repeats after
    12 * 253 = 3036 tocks. *)
Theorem counters_from_boot (k : nat) :
  exists s, ticks (27 * k) boot = Some s /\ LedComTimePhase s = 0 /\
    LedChaseCount s =
      Arr3 (113 - Z.of_nat k mod 113) (11 - Z.of_nat k mod 11)
           (9 - Z.of_nat k mod 9) /\
    LedColorCount s = 253 - Z.of_nat k mod 253 /\
    colorcount s = (Z.of_nat k / 253) mod 12.
Proof.
  induction k as [ | k IH].
  - exists boot. repeat split.
  - destruct IH as (s & E & P & Hc & Hn & Hi).
    assert (HI : Inv s).
    { destruct (ticks_Inv (27 * k) boot boot_Inv) as (s0 & E0 & HI0).
      congruence. }
    destruct (tock_counters s HI P) as (s' & E' & _ & P' & Hc' & Hn' & Hi').
    exists s'. split.
    { rewrite Nat.mul_succ_r, ticks_add, E. exact E'. }
    split; [exact P' | ].
    rewrite Hc in Hc'. cbn [get3 el0 el1 el2] in Hc'.
    rewrite Hn in Hn', Hi'. rewrite Hi in Hi'.
    rewrite Nat2Z.inj_succ. unfold Z.succ.
    rewrite !next_count_cycle in Hc' by lia.
    rewrite next_count_cycle in Hn' by lia.
    rewrite colorcount_cycle in Hi' by lia.
    auto.
Qed.

(** * Movement of the pixels *)


Lemma chase_effect_pos_step (s s' : state) :
  0 <= LedComTimePhase s <= 26 -> chase_effect s s' ->
  LedPos s' =
    pos_step (LedComTimePhase s) (mode s) (randomposns s) (LedChaseCount s)
      (LedPos s).
Proof.
  intros Hp. unfold chase_effect, pos_step.
  remember (LedComTimePhase s) as ph eqn:Eph. clear Eph.
  cases_of ph 27%nat; cbv beta iota; intros C; exact C.
Qed.

Lemma counters_chase (s s' : state) :
  counters s' = counters_step (LedComTimePhase s) (counters s) ->
  LedChaseCount s' =
    (let c := counters_step (LedComTimePhase s)
                (Ctr (el0 (LedChaseCount s)) (el1 (LedChaseCount s))
                     (el2 (LedChaseCount s)) 0 0) in
     Arr3 (ch0 c) (ch1 c) (ch2 c)).
Proof.
  unfold counters. destruct (LedChaseCount s') as [a b c].
  destruct (LedChaseCount s) as [x y z]. cbn [get3 el0 el1 el2].
  generalize (LedColorCount s) (colorcount s) (LedColorCount s')
    (colorcount s') (LedComTimePhase s).
  intros n1 i1 n2 i2 ph. unfold counters_step.
  destruct ph as [ | p | p]; [ | | ].
  - cbn [ch0 ch1 ch2 cnt cidx]. intros E. injection E as -> -> -> _ _.
    reflexivity.
  - repeat (destruct p as [p | p | ]; cbn [ch0 ch1 ch2 cnt cidx];
            try (intros E; injection E as -> -> ->; reflexivity)).
  - cbn [ch0 ch1 ch2 cnt cidx]. intros E. injection E as -> -> -> _ _.
    reflexivity.
Qed.

(** Phases 0 to 8 leave the mode and the pending random positions alone. *)
Lemma quiet_phase (s s' : state) :
  Inv s -> LedComTimePhase s <= 8 -> interrupt s = Some s' ->
  mode s' = mode s /\ randomposns s' = randomposns s.
Proof.
  intros HI Hp E. pose proof (inv_phase s HI) as R.
  pose proof (interrupt_presence s s' HI E) as W.
  pose proof (interrupt_random s s' HI E) as D. unfold random_effect in D.
  revert W D. remember (LedComTimePhase s) as ph eqn:Eph. clear Eph.
  revert Hp. cases_of ph 27%nat; intros Hp; try lia; cbv beta iota;
    change (_ =? 26) with false; cbv iota; intros (W & _) D; auto.
Qed.

Lemma ticks_run_pos (n : nat) :
  forall s s', Inv s -> LedComTimePhase s + Z.of_nat n <= 9 ->
  ticks n s = Some s' ->
  mode s' = mode s /\ randomposns s' = randomposns s /\
  (LedChaseCount s', LedPos s') =
    run_pos n (LedComTimePhase s) (mode s) (randomposns s) (LedChaseCount s)
      (LedPos s).
Proof.
  induction n as [ | n IH]; intros s s' HI Hn E.
  - injection E as <-. auto.
  - rewrite ticks_S in E. destruct (interrupt_Inv s HI) as (s1 & E1 & HI1).
    rewrite E1 in E. pose proof (inv_phase s HI) as R.
    destruct (interrupt_timebase s s1 HI E1) as (_ & P1 & _).
    destruct (quiet_phase s s1 HI ltac:(lia) E1) as (M1 & R1).
    pose proof (chase_effect_pos_step s s1 R (interrupt_chase s s1 HI E1)) as L1.
    pose proof (counters_chase s s1 (interrupt_counters s s1 HI E1)) as C1.
    rewrite Z.mod_small in P1 by lia.
    destruct (IH s1 s' HI1 ltac:(lia) E) as (M & Rn & Run).
    rewrite M, Rn, M1, R1. split; [reflexivity | split; [reflexivity | ]].
    rewrite Run, M1, R1, L1, C1, P1. cbn [run_pos].
    rewrite (Z.mod_small (LedComTimePhase s + 1)) by lia. reflexivity.
Qed.

(** Phases 9 to 26 leave the positions alone. *)
Lemma ticks_keep_pos (n : nat) :
  forall s s', Inv s -> 9 <= LedComTimePhase s ->
  LedComTimePhase s + Z.of_nat n <= 27 ->
  ticks n s = Some s' -> LedPos s' = LedPos s.
Proof.
  induction n as [ | n IH]; intros s s' HI Hp Hn E.
  - injection E as <-. reflexivity.
  - rewrite ticks_S in E. destruct (interrupt_Inv s HI) as (s1 & E1 & HI1).
    rewrite E1 in E. pose proof (inv_phase s HI) as R.
    destruct (interrupt_timebase s s1 HI E1) as (_ & P1 & _).
    pose proof (chase_effect_pos_step s s1 R (interrupt_chase s s1 HI E1)) as L1.
    assert (Hsame : LedPos s1 = LedPos s).
    { rewrite L1. clear - Hp R. revert Hp.
      remember (LedComTimePhase s) as ph eqn:Eph. clear Eph.
      cases_of ph 27%nat; intros Hp; try lia; reflexivity. }
    destruct n as [ | n].
    + injection E as <-. exact Hsame.
    + rewrite <- Hsame. apply (IH s1 s' HI1); [ | | exact E].
      * rewrite P1, Z.mod_small; lia.
      * rewrite P1, Z.mod_small; lia.
Qed.

Lemma run_pos_S (n : nat) (ph md : Z) (rnd ch pos : arr3) :
  run_pos (S n) ph md rnd ch pos =
    run_pos n ((ph + 1) mod 27) md rnd
      (let c := counters_step ph (Ctr (el0 ch) (el1 ch) (el2 ch) 0 0) in
       Arr3 (ch0 c) (ch1 c) (ch2 c))
      (pos_step ph md rnd ch pos).
Proof. reflexivity. Qed.

Lemma run_pos_9 (md : Z) (rnd ch pos : arr3) :
  snd (run_pos 9 0 md rnd ch pos) =
    Arr3 (if u8 (el0 ch - 1) =? 0
          then (if md =? 0 then el0 rnd else chase_up (el0 pos))
          else el0 pos)
         (if u8 (el1 ch - 1) =? 0
          then (if md =? 0 then el1 rnd else chase_down (el1 pos))
          else el1 pos)
         (if u8 (el2 ch - 1) =? 0
          then (if md =? 0 then el2 rnd else chase_up (el2 pos))
          else el2 pos).
Proof.
  destruct rnd as [r0 r1 r2], ch as [a b c], pos as [p0 p1 p2].
  do 9 (rewrite run_pos_S;
        match goal with
        | |- context [(?k + 1) mod 27] =>
            let v := eval vm_compute in ((k + 1) mod 27) in
            change ((k + 1) mod 27) with v
        end;
        cbv [counters_step pos_step ch0 ch1 ch2 get3 put3 el0 el1 el2]).
  cbv [run_pos snd get3 put3 el0 el1 el2].
  destruct (u8 (a - 1) =? 0), (u8 (b - 1) =? 0), (u8 (c - 1) =? 0);
    cbv [get3 put3 el0 el1 el2]; reflexivity.
Qed.

(** Over one tock (27 interrupts from phase 0) pixel [i] keeps its
    position unless its chase counter was 1 at the start; then, in mode 0,
    it takes the random position that was pending at the start of the
    tock, and otherwise it moves one step: +1 modulo 24 for pixels 0 and
    2, -1 modulo 24 for pixel 1. *)
Theorem positions_after_tock (s : state) (i : ix3) :
  Inv s -> LedComTimePhase s = 0 ->
  exists s', ticks 27 s = Some s' /\
    get3 (LedPos s') i =
      (if get3 (LedChaseCount s) i =? 1
       then (if mode s =? 0 then get3 (randomposns s) i
             else advance i (get3 (LedPos s) i))
       else get3 (LedPos s) i).
Proof.
  intros HI Hp.
  destruct (ticks_Inv 9 s HI) as (s9 & E9 & HI9).
  destruct (ticks_Inv 18 s9 HI9) as (s' & E18 & _).
  exists s'. split.
  { change 27%nat with (9 + 18)%nat. rewrite ticks_add, E9. exact E18. }
  destruct (ticks_closed 9 s s9 HI E9) as (_ & P9 & _).
  rewrite Hp in P9. change ((0 + Z.of_nat 9) mod 27) with 9 in P9.
  rewrite (ticks_keep_pos 18 s9 s' HI9);
    [ | rewrite P9; lia | rewrite P9; change (Z.of_nat 18) with 18; lia
      | exact E18].
  destruct (ticks_run_pos 9 s s9 HI) as (_ & _ & Run);
    [rewrite Hp; change (Z.of_nat 9) with 9; lia | exact E9 | ].
  assert (L9 : LedPos s9 = snd (run_pos 9 (LedComTimePhase s) (mode s)
                                  (randomposns s) (LedChaseCount s) (LedPos s)))
    by (rewrite <- Run; reflexivity).
  rewrite Hp, run_pos_9 in L9. rewrite L9.
  destruct (inv_chase s HI) as (K0 & K1 & K2).
  destruct (inv_pos s HI) as (Q0 & Q1 & Q2).
  unfold byte_range in *.
  assert (Hone : forall c, 0 <= c <= 255 -> (u8 (c - 1) =? 0) = (c =? 1)).
  { intros c Hc. destruct (c =? 1) eqn:B; bools.
    - subst c. reflexivity.
    - apply Z.eqb_neq. arith. }
  destruct i; cbn [get3 el0 el1 el2 advance];
    rewrite Hone by assumption;
    destruct (_ =? 1); try reflexivity;
    destruct (mode s =? 0); try reflexivity.
  - apply chase_up_spec, Q0.
  - apply chase_down_spec, Q1.
  - apply chase_up_spec, Q2.
Qed.

Lemma positions_after_tock_witness :
  exists s', ticks 27 (set_LedChaseCount (Arr3 5 1 9) (ir_detected boot))
               = Some s' /\
    get3 (LedPos s') i1 =
      (if get3 (LedChaseCount
                  (set_LedChaseCount (Arr3 5 1 9) (ir_detected boot))) i1 =? 1
       then (if mode (set_LedChaseCount (Arr3 5 1 9) (ir_detected boot)) =? 0
             then get3 (randomposns
                          (set_LedChaseCount (Arr3 5 1 9) (ir_detected boot)))
                    i1
             else advance i1
                    (get3 (LedPos
                             (set_LedChaseCount (Arr3 5 1 9)
                                (ir_detected boot))) i1))
       else get3 (LedPos (set_LedChaseCount (Arr3 5 1 9) (ir_detected boot)))
              i1).
Proof.
  apply (positions_after_tock
           (set_LedChaseCount (Arr3 5 1 9) (ir_detected boot)) i1).
  - constructor; vm_compute; try tauto; repeat split; discriminate.
  - reflexivity.
Defined.
